(** * pymazda: the authenticated, encrypted request pipeline of [connection.py]

    A shallow embedding of [pymazda/connection.py] (class [Connection]) and
    the properties of its key manager, session manager and retry pipeline.

    Python values that arrive from the network are dynamically typed; they
    are kept as [json] values.  A [str] is held as the bytes of its UTF-8
    encoding, so [s.encode()] and [b.decode("utf-8")] leave it as it is.  Methods that only read [self] are functions
    of the [Connection] record returning a [result]; the [async] methods,
    which mutate [self] and talk to the transport, live in a state and
    exception monad over [state].  The self-recursive methods take fuel. *)

From Stdlib Require Import ZArith QArith Qround List String Ascii Bool Lia.
From Stdlib Require Import Btauto.
From Stdlib Require Import DecimalString.
Import ListNotations.

Set Warnings "-register-all".
Local Open Scope string_scope.
Local Open Scope Z_scope.

(** ** Python values *)

(** What [json.loads] and [response.json()] produce.  A number is a Python
    [int] or [float]; both are rationals, and Python compares them exactly. *)
Inductive json : Type :=
| JNull
| JBool (b : bool)
| JNum (q : Q)
| JStr (s : string)
| JArr (items : list json)
| JObj (fields : list (string * json)).

(** A Python [dict] with string keys, in insertion order. *)
Definition pydict := list (string * json).

(** The exceptions of [pymazda.exceptions] and the built-in ones the module
    can raise.  [pymazda/exceptions.py] is not among the sources: its five
    classes are the names imported at the top of [connection.py], and they
    are taken as unrelated, so that an [except] clause naming one of them
    catches that one only.  [ExternalError] stands for whatever a library
    call raises ([aiohttp.ClientError], [json.JSONDecodeError],
    [binascii.Error], [ValueError] of a cipher), of whatever class. *)
Inductive exn : Type :=
| MazdaException (msg : string)
| MazdaAPIEncryptionException (msg : string)
| MazdaAuthenticationException (msg : string)
| MazdaAccountLockedException (msg : string)
| MazdaTokenExpiredException (msg : string)
| TypeError
| KeyError (key : string)
| ExternalError (what : string).

(** The value of a Python expression: a value or a raised exception. *)
Inductive result (A : Type) : Type :=
| Ok (a : A)
| Err (e : exn).
Arguments Ok {A} a.
Arguments Err {A} e.

Definition rbind {A B} (r : result A) (k : A -> result B) : result B :=
  match r with
  | Ok a => k a
  | Err e => Err e
  end.

Declare Scope result_scope.
Delimit Scope result_scope with result.
Notation "x <-- r ;;; k" := (rbind r (fun x => k))
  (at level 61, r at next level, right associativity) : result_scope.

(** [d[key]] *)
Fixpoint dict_get (d : pydict) (key : string) : result json :=
  match d with
  | [] => Err (KeyError key)
  | (k, v) :: rest => if String.eqb k key then Ok v else dict_get rest key
  end.

(** [v[key]] for a string [key]: only a [dict] can be subscripted by one. *)
Definition getitem (v : json) (key : string) : result json :=
  match v with
  | JObj d => dict_get d key
  | _ => Err TypeError
  end.

(** [v == s] for a string literal [s] *)
Definition eq_str (v : json) (s : string) : bool :=
  match v with
  | JStr s' => String.eqb s' s
  | _ => false
  end.

(** [v == n] for an integer literal [n]; [True == 1] and [False == 0]. *)
Definition eq_int (v : json) (n : Z) : bool :=
  match v with
  | JNum q => Qeq_bool q (inject_Z n)
  | JBool b => Z.eqb (if b then 1 else 0) n
  | _ => false
  end.

(** [v <= t] for a float [t]: defined on numbers, a [TypeError] otherwise. *)
Definition le_float (v : json) (t : Q) : result bool :=
  match v with
  | JNum q => Ok (Qle_bool q t)
  | JBool b => Ok (Qle_bool (inject_Z (if b then 1 else 0)) t)
  | _ => Err TypeError
  end.

(** [a + b] where [a] is a [str]: concatenation, a [TypeError] when [b] is
    anything else. *)
Definition str_add (a : string) (b : json) : result string :=
  match b with
  | JStr s => Ok (a ++ s)
  | _ => Err TypeError
  end.

(** [v is None] *)
Definition is_none (v : json) : bool :=
  match v with
  | JNull => true
  | _ => false
  end.

(** [v is None or v == ""] *)
Definition none_or_empty (v : json) : bool :=
  is_none v || eq_str v "".

(** The same test on an argument that the callers pass as [str] or [None]. *)
Definition arg_none_or_empty (v : option string) : bool :=
  match v with
  | None => true
  | Some s => String.eqb s ""
  end.

Definition arg_str (v : option string) : string :=
  match v with
  | None => ""
  | Some s => s
  end.

(** ** Strings *)

(** [s[k:]] for [k >= 0] *)
Fixpoint slice_from (k : nat) (s : string) : string :=
  match k, s with
  | O, _ => s
  | S k', String _ s' => slice_from k' s'
  | S _, EmptyString => EmptyString
  end.

(** [s[:k]] for [k >= 0] *)
Fixpoint slice_to (k : nat) (s : string) : string :=
  match k, s with
  | O, _ => EmptyString
  | S k', String c s' => String c (slice_to k' s')
  | S _, EmptyString => EmptyString
  end.

(** [s[a:b]] for [0 <= a <= b] *)
Definition slice (a b : nat) (s : string) : string :=
  slice_to (b - a) (slice_from a s).

Definition upper_char (c : ascii) : ascii :=
  let n := nat_of_ascii c in
  if (Nat.leb 97 n && Nat.leb n 122)%bool then ascii_of_nat (n - 32) else c.

Definition lower_char (c : ascii) : ascii :=
  let n := nat_of_ascii c in
  if (Nat.leb 65 n && Nat.leb n 90)%bool then ascii_of_nat (n + 32) else c.

Fixpoint map_string (f : ascii -> ascii) (s : string) : string :=
  match s with
  | EmptyString => EmptyString
  | String c s' => String (f c) (map_string f s')
  end.

(** [s.upper()] and [s.lower()]; the module applies them to timestamps and
    hex digests only, where the ASCII rule is the whole rule. *)
Definition upper (s : string) : string := map_string upper_char s.
Definition lower (s : string) : string := map_string lower_char s.

Fixpoint prefixb (p s : string) : bool :=
  match p, s with
  | EmptyString, _ => true
  | String a p', String b s' => Ascii.eqb a b && prefixb p' s'
  | String _ _, EmptyString => false
  end.

(** [needle in s] *)
Fixpoint contains (needle s : string) : bool :=
  prefixb needle s ||
  match s with
  | EmptyString => false
  | String _ s' => contains needle s'
  end.

(** [str(n)] *)
Definition str_of_Z (n : Z) : string :=
  NilZero.string_of_int (Z.to_int n).

(** [round(t)] of a float: to the nearest integer, ties to the even one. *)
Definition py_round (t : Q) : Z :=
  let f := Qfloor t in
  match Qcompare (t - inject_Z f) (1 # 2) with
  | Lt => f
  | Gt => f + 1
  | Eq => if Z.even f then f else f + 1
  end.

(** ** [hashlib]: SHA-256 (FIPS 180-4) and MD5 (RFC 1321)

    The two digests the module takes, over the bytes of a string, as
    lowercase hexadecimal text ([hexdigest()]).  Words are 32-bit integers
    held in [Z], with the wrap-around written out. *)
Module Hashlib.

Definition mask32 : Z := 0xffffffff.
Definition add32 (a b : Z) : Z := Z.land (a + b) mask32.
Definition not32 (a : Z) : Z := Z.lxor a mask32.
Definition rotr (n x : Z) : Z :=
  Z.lor (Z.shiftr x n) (Z.land (Z.shiftl x (32 - n)) mask32).
Definition rotl (n x : Z) : Z :=
  Z.lor (Z.land (Z.shiftl x n) mask32) (Z.shiftr x (32 - n)).

Definition bytes_of (s : string) : list Z :=
  map (fun c => Z.of_N (N_of_ascii c)) (list_ascii_of_string s).

(** [n] as [k] bytes, least significant first *)
Fixpoint le_bytes (k : nat) (n : Z) : list Z :=
  match k with
  | O => []
  | S k' => Z.land n 255 :: le_bytes k' (Z.shiftr n 8)
  end.

Definition be_bytes (k : nat) (n : Z) : list Z := rev (le_bytes k n).

Fixpoint blocks (fuel : nat) (l : list Z) : list (list Z) :=
  match fuel, l with
  | S fuel', _ :: _ => firstn 64 l :: blocks fuel' (skipn 64 l)
  | _, _ => []
  end.

(** The message, a [1] bit, zeros up to 56 modulo 64, then the bit length
    in eight bytes as [len] lays them out. *)
Definition pad (len : Z -> list Z) (msg : list Z) : list Z :=
  let n := Z.of_nat (List.length msg) in
  let zeros := Z.to_nat ((55 - n) mod 64) in
  msg ++ [128] ++ repeat 0 zeros ++ len (8 * n).

Fixpoint words (dec : list Z -> Z) (fuel : nat) (l : list Z) : list Z :=
  match fuel, l with
  | S fuel', _ :: _ => dec (firstn 4 l) :: words dec fuel' (skipn 4 l)
  | _, _ => []
  end.

Definition be_word (bs : list Z) : Z :=
  fold_left (fun acc b => Z.lor (Z.shiftl acc 8) b) bs 0.
Definition le_word (bs : list Z) : Z := be_word (rev bs).

Definition hex_chars : list ascii :=
  list_ascii_of_string "0123456789abcdef".

Definition hex_digit (n : Z) : ascii :=
  nth (Z.to_nat (Z.land n 15)) hex_chars "0"%char.

(** A byte as two hexadecimal digits *)
Definition hex_byte (b : Z) : list ascii :=
  [hex_digit (Z.shiftr b 4); hex_digit b].

Definition hex_of_bytes (bs : list Z) : string :=
  string_of_list_ascii (flat_map hex_byte bs).

(** *** SHA-256 *)

(** The constants are what FIPS 180-4 says they are: the first 32 bits of
    the fractional parts of the cube roots (for the rounds) and of the
    square roots (for the initial hash) of the first primes. *)
Definition is_prime (n : Z) : bool :=
  forallb (fun d => negb (n mod Z.of_nat d =? 0)) (seq 2 (Z.to_nat n - 2)).

Definition first_primes (k : nat) : list Z :=
  firstn k (filter is_prime (map Z.of_nat (seq 2 400))).

(** The integer cube root of [n], between [lo] and [hi] *)
Fixpoint cbrt_between (fuel : nat) (lo hi n : Z) : Z :=
  match fuel with
  | O => lo
  | S fuel' =>
      if hi - lo <=? 1 then lo
      else
        let mid := (lo + hi) / 2 in
        if mid * mid * mid <=? n
        then cbrt_between fuel' mid hi n
        else cbrt_between fuel' lo mid n
  end.

Definition frac_cbrt32 (p : Z) : Z :=
  Z.land (cbrt_between 64 0 (2 ^ 40) (p * 2 ^ 96)) mask32.

Definition frac_sqrt32 (p : Z) : Z :=
  Z.land (Z.sqrt (p * 2 ^ 64)) mask32.

Definition K256 : list Z :=
  Eval vm_compute in map frac_cbrt32 (first_primes 64).

Record hash256 : Type := Hash256 {
  h0 : Z; h1 : Z; h2 : Z; h3 : Z; h4 : Z; h5 : Z; h6 : Z; h7 : Z }.

Definition init256 : hash256 :=
  Eval vm_compute in
    let h := map frac_sqrt32 (first_primes 8) in
    Hash256 (nth 0 h 0) (nth 1 h 0) (nth 2 h 0) (nth 3 h 0)
            (nth 4 h 0) (nth 5 h 0) (nth 6 h 0) (nth 7 h 0).

Definition ssig0 (x : Z) : Z :=
  Z.lxor (Z.lxor (rotr 7 x) (rotr 18 x)) (Z.shiftr x 3).
Definition ssig1 (x : Z) : Z :=
  Z.lxor (Z.lxor (rotr 17 x) (rotr 19 x)) (Z.shiftr x 10).
Definition bsig0 (x : Z) : Z :=
  Z.lxor (Z.lxor (rotr 2 x) (rotr 13 x)) (rotr 22 x).
Definition bsig1 (x : Z) : Z :=
  Z.lxor (Z.lxor (rotr 6 x) (rotr 11 x)) (rotr 25 x).
Definition ch (x y z : Z) : Z :=
  Z.lxor (Z.land x y) (Z.land (not32 x) z).
Definition maj (x y z : Z) : Z :=
  Z.lxor (Z.lxor (Z.land x y) (Z.land x z)) (Z.land y z).

(** The message schedule, sixteen words at a time: the window holds
    [W(t) .. W(t+15)] and slides by one. *)
Definition slide (w : list Z) : list Z :=
  let next :=
    add32 (add32 (ssig1 (nth 14 w 0)) (nth 9 w 0))
          (add32 (ssig0 (nth 1 w 0)) (nth 0 w 0)) in
  tl w ++ [next].

Definition round256 (s : hash256) (k w : Z) : hash256 :=
  let t1 :=
    add32 (add32 (add32 (h7 s) (bsig1 (h4 s))) (ch (h4 s) (h5 s) (h6 s)))
          (add32 k w) in
  let t2 := add32 (bsig0 (h0 s)) (maj (h0 s) (h1 s) (h2 s)) in
  Hash256 (add32 t1 t2) (h0 s) (h1 s) (h2 s)
          (add32 (h3 s) t1) (h4 s) (h5 s) (h6 s).

Fixpoint rounds256 (ks : list Z) (w : list Z) (s : hash256) : hash256 :=
  match ks with
  | [] => s
  | k :: ks' => rounds256 ks' (slide w) (round256 s k (nth 0 w 0))
  end.

Definition compress256 (s : hash256) (block : list Z) : hash256 :=
  let r := rounds256 K256 (words be_word 16 block) s in
  Hash256 (add32 (h0 s) (h0 r)) (add32 (h1 s) (h1 r))
          (add32 (h2 s) (h2 r)) (add32 (h3 s) (h3 r))
          (add32 (h4 s) (h4 r)) (add32 (h5 s) (h5 r))
          (add32 (h6 s) (h6 r)) (add32 (h7 s) (h7 r)).

Definition sha256_words (msg : list Z) : list Z :=
  let padded := pad (be_bytes 8) msg in
  let s := fold_left compress256 (blocks (List.length padded) padded) init256 in
  [h0 s; h1 s; h2 s; h3 s; h4 s; h5 s; h6 s; h7 s].

(** [hashlib.sha256(s.encode()).hexdigest()] *)
Definition sha256_hexdigest (s : string) : string :=
  hex_of_bytes (flat_map (be_bytes 4) (sha256_words (bytes_of s))).

(** *** MD5 *)

Definition T5 : list Z :=
  [0xd76aa478; 0xe8c7b756; 0x242070db; 0xc1bdceee; 0xf57c0faf; 0x4787c62a;
   0xa8304613; 0xfd469501; 0x698098d8; 0x8b44f7af; 0xffff5bb1; 0x895cd7be;
   0x6b901122; 0xfd987193; 0xa679438e; 0x49b40821; 0xf61e2562; 0xc040b340;
   0x265e5a51; 0xe9b6c7aa; 0xd62f105d; 0x02441453; 0xd8a1e681; 0xe7d3fbc8;
   0x21e1cde6; 0xc33707d6; 0xf4d50d87; 0x455a14ed; 0xa9e3e905; 0xfcefa3f8;
   0x676f02d9; 0x8d2a4c8a; 0xfffa3942; 0x8771f681; 0x6d9d6122; 0xfde5380c;
   0xa4beea44; 0x4bdecfa9; 0xf6bb4b60; 0xbebfbc70; 0x289b7ec6; 0xeaa127fa;
   0xd4ef3085; 0x04881d05; 0xd9d4d039; 0xe6db99e5; 0x1fa27cf8; 0xc4ac5665;
   0xf4292244; 0x432aff97; 0xab9423a7; 0xfc93a039; 0x655b59c3; 0x8f0ccc92;
   0xffeff47d; 0x85845dd1; 0x6fa87e4f; 0xfe2ce6e0; 0xa3014314; 0x4e0811a1;
   0xf7537e82; 0xbd3af235; 0x2ad7d2bb; 0xeb86d391].

Definition S5 : list Z :=
  [7; 12; 17; 22; 7; 12; 17; 22; 7; 12; 17; 22; 7; 12; 17; 22;
   5; 9; 14; 20; 5; 9; 14; 20; 5; 9; 14; 20; 5; 9; 14; 20;
   4; 11; 16; 23; 4; 11; 16; 23; 4; 11; 16; 23; 4; 11; 16; 23;
   6; 10; 15; 21; 6; 10; 15; 21; 6; 10; 15; 21; 6; 10; 15; 21].

Record hash5 : Type := Hash5 { a5 : Z; b5 : Z; c5 : Z; d5 : Z }.

Definition init5 : hash5 :=
  Hash5 0x67452301 0xefcdab89 0x98badcfe 0x10325476.

(** The mixing function and the message index of step [i] *)
Definition mix5 (i : Z) (s : hash5) : Z * Z :=
  let b := b5 s in
  let c := c5 s in
  let d := d5 s in
  if i <? 16 then (Z.lor (Z.land b c) (Z.land (not32 b) d), i)
  else if i <? 32 then
    (Z.lor (Z.land d b) (Z.land (not32 d) c), (5 * i + 1) mod 16)
  else if i <? 48 then (Z.lxor (Z.lxor b c) d, (3 * i + 5) mod 16)
  else (Z.lxor c (Z.lor b (not32 d)), (7 * i) mod 16).

Definition step5 (m : list Z) (s : hash5) (i : Z) : hash5 :=
  let (f, g) := mix5 i s in
  let k := nth (Z.to_nat i) T5 0 in
  let r := nth (Z.to_nat i) S5 0 in
  let f' := add32 (add32 f (a5 s)) (add32 k (nth (Z.to_nat g) m 0)) in
  Hash5 (d5 s) (add32 (b5 s) (rotl r f')) (b5 s) (c5 s).

Definition compress5 (s : hash5) (block : list Z) : hash5 :=
  let m := words le_word 16 block in
  let r := fold_left (step5 m) (map Z.of_nat (seq 0 64)) s in
  Hash5 (add32 (a5 s) (a5 r)) (add32 (b5 s) (b5 r))
        (add32 (c5 s) (c5 r)) (add32 (d5 s) (d5 r)).

Definition md5_words (msg : list Z) : list Z :=
  let padded := pad (le_bytes 8) msg in
  let s := fold_left compress5 (blocks (List.length padded) padded) init5 in
  [a5 s; b5 s; c5 s; d5 s].

(** [hashlib.md5(s.encode()).hexdigest()] *)
Definition md5_hexdigest (s : string) : string :=
  hex_of_bytes (flat_map (le_bytes 4) (md5_words (bytes_of s))).

End Hashlib.

(** ** Libraries the module calls

    [json], [urllib.parse], [base64] of the Python library and the three
    functions of [pymazda.crypto_utils], which is not part of the verified
    file.  The pipeline is parametric in them: none of them touches the
    session, and each either gives a value or fails with an exception of
    its own, never with one of [pymazda.exceptions].  Byte strings are
    strings. *)
Inductive libcall (A : Type) : Type :=
| Gives (a : A)
| Fails (what : string).
Arguments Gives {A} a.
Arguments Fails {A} what.

Definition called {A} (c : libcall A) : result A :=
  match c with
  | Gives a => Ok a
  | Fails what => Err (ExternalError what)
  end.

Class Externals : Type := {
  json_loads : string -> libcall json;
  json_dumps : pydict -> string;
  urlencode : pydict -> string;
  b64decode : json -> libcall string;
  b64encode : string -> string;
  encryptAES128CBCBufferToBase64String :
    string -> json -> string -> libcall string;
  decryptAES128CBCBufferToString :
    string -> json -> string -> libcall string;
  encryptRSAECBPKCS1Padding : string -> json -> libcall string
}.

(** ** The module's constants *)

Definition APP_CODE : string := "202007270941270111799".
Definition BASE_URL : string := "https://0cxo7m58.mazda.com/prod/".
Definition USHER_URL : string := "https://ptznwbh8.mazda.com/appapi/v1/".
Definition IV : string := "0102030405060708".
Definition SIGNATURE_MD5 : string := "C383D8C4D279B78130AD52DC71D95CAA".
Definition APP_PACKAGE_ID : string := "com.interrait.mymazda".
Definition DEVICE_ID : string := "D9E89AFC-BD3C-309F-A48C-A2A9466DFE9C".
Definition USER_AGENT_BASE_API : string := "MyMazda-Android/7.1.0".
Definition USER_AGENT_USHER_API : string :=
  "MyMazda/7.1.0 (Google Pixel 3a; Android 11)".
Definition APP_OS : string := "Android".
Definition APP_VERSION : string := "7.1.0".

Definition MAX_RETRIES : Z := 4.

(** ** The session and its world *)

(** The fields [__init__] sets, the transport and the logger apart. *)
Record Connection : Type := mkConnection {
  email : string;
  password : string;
  enc_key : json;
  sign_key : json;
  access_token : json;
  access_token_expiration_ts : json
}.

(** [Connection(email, password)] *)
Definition __init__ (email password : string) : Connection :=
  mkConnection email password JNull JNull JNull JNull.

Definition set_enc_key (self : Connection) (v : json) : Connection :=
  mkConnection (email self) (password self) v (sign_key self)
               (access_token self) (access_token_expiration_ts self).
Definition set_sign_key (self : Connection) (v : json) : Connection :=
  mkConnection (email self) (password self) (enc_key self) v
               (access_token self) (access_token_expiration_ts self).
Definition set_access_token (self : Connection) (v : json) : Connection :=
  mkConnection (email self) (password self) (enc_key self) (sign_key self)
               v (access_token_expiration_ts self).
Definition set_access_token_expiration_ts (self : Connection) (v : json)
  : Connection :=
  mkConnection (email self) (password self) (enc_key self) (sign_key self)
               (access_token self) v.

(** What [self._session.request] is called with. *)
Record http_request : Type := mkRequest {
  http_method : string;
  http_url : string;
  http_params : pydict;
  http_headers : pydict;
  http_data : string;
  http_json : pydict
}.

(** What a run does, in order.  A call of [__retrieve_keys] or of [login]
    is one event that holds what happened inside the call. *)
Inductive event : Type :=
| EvAttempt (uri : string) (num_retries : Z)
| EvRequest (r : http_request)
| EvRetrieveKeys (inner : list event)
| EvLogin (inner : list event).

(** The session together with its surroundings: the replies the transport
    will give to the coming requests, in order (the parsed body of
    [response.json()], or a failure of the call; no reply left is a
    connection error), the readings of [time.time()], and the trace. *)
Record state : Type := mkState {
  self : Connection;
  inbox : list (libcall json);
  clock : nat -> Q;
  ticks : nat;
  trace : list event
}.

Definition set_self (s : state) (c : Connection) : state :=
  mkState c (inbox s) (clock s) (ticks s) (trace s).
Definition set_inbox (s : state) (i : list (libcall json)) : state :=
  mkState (self s) i (clock s) (ticks s) (trace s).
Definition set_ticks (s : state) (n : nat) : state :=
  mkState (self s) (inbox s) (clock s) n (trace s).
Definition set_trace (s : state) (t : list event) : state :=
  mkState (self s) (inbox s) (clock s) (ticks s) t.

(** ** The monad of the [async] methods *)

Inductive outcome (A : Type) : Type :=
| Return (a : A)
| Raise (e : exn)
| OutOfFuel.
Arguments Return {A} a.
Arguments Raise {A} e.
Arguments OutOfFuel {A}.

Definition M (A : Type) : Type := state -> outcome A * state.

Definition ret {A} (a : A) : M A := fun s => (Return a, s).
Definition raise {A} (e : exn) : M A := fun s => (Raise e, s).
Definition out_of_fuel {A} : M A := fun s => (OutOfFuel, s).

Definition bind {A B} (m : M A) (k : A -> M B) : M B :=
  fun s =>
    match m s with
    | (Return a, s') => k a s'
    | (Raise e, s') => (Raise e, s')
    | (OutOfFuel, s') => (OutOfFuel, s')
    end.

Declare Scope monad_scope.
Delimit Scope monad_scope with monad.
Notation "x <- m ;; k" := (bind m (fun x => k))
  (at level 61, m at next level, right associativity) : monad_scope.
Notation "m ;; k" := (bind m (fun _ => k))
  (at level 61, right associativity) : monad_scope.
Local Open Scope monad_scope.

(** The value of an expression, raised when it is an exception. *)
Definition lift {A} (r : result A) : M A :=
  match r with
  | Ok a => ret a
  | Err e => raise e
  end.

(** [try: m  except <the classes h knows>: h e] *)
Definition try_except {A} (m : M A) (h : exn -> option (M A)) : M A :=
  fun s =>
    match m s with
    | (Raise e, s') =>
        match h e with
        | Some k => k s'
        | None => (Raise e, s')
        end
    | other => other
    end.

Definition get_self : M Connection := fun s => (Return (self s), s).

(** [self.<attribute> = v] *)
Definition set_attr (setter : Connection -> json -> Connection) (v : json)
  : M unit :=
  fun s => (Return tt, set_self s (setter (self s) v)).

Definition emit (e : event) : M unit :=
  fun s => (Return tt, set_trace s (trace s ++ [e])).

(** Runs [m] as one call: what it does is recorded as a single event. *)
Definition scoped {A} (wrap : list event -> event) (m : M A) : M A :=
  fun s =>
    let (r, s') := m (set_trace s []) in
    (r, set_trace s' (trace s ++ [wrap (trace s')])).

(** [time.time()]: the next reading of the clock, an exact rational. *)
Definition time_time : M Q :=
  fun s => (Return (clock s (ticks s)), set_ticks s (S (ticks s))).

(** [await self._session.request(...)] followed by [await response.json()] *)
Definition session_request (r : http_request) : M json :=
  emit (EvRequest r) ;;
  fun s =>
    match inbox s with
    | [] => (Raise (ExternalError "ClientConnectionError"), s)
    | Gives v :: rest => (Return v, set_inbox s rest)
    | Fails what :: rest => (Raise (ExternalError what), set_inbox s rest)
    end.

(** [self.logger.debug(msg)]: the message is built, nothing else happens. *)
Definition logger_debug (msg : string) : M unit := ret tt.

(** ** class [Connection] *)

Section Methods.
Context {X : Externals}.

(** [str(int(round(time.time() * 1000)))] *)
Definition __get_timestamp_str_ms : M string :=
  t <- time_time ;;
  ret (str_of_Z (py_round (t * inject_Z 1000)%Q)).

(** [str(int(round(time.time())))] *)
Definition __get_timestamp_str : M string :=
  t <- time_time ;;
  ret (str_of_Z (py_round t)).

Definition __get_decryption_key_from_app_code : string :=
  let val1 := upper (Hashlib.md5_hexdigest (APP_CODE ++ APP_PACKAGE_ID)) in
  let val2 := lower (Hashlib.md5_hexdigest (val1 ++ SIGNATURE_MD5)) in
  slice 4 20 val2.

Definition __get_temporary_sign_key_from_app_code (appCode : string)
  : string :=
  let val1 := upper (Hashlib.md5_hexdigest (appCode ++ APP_PACKAGE_ID)) in
  let val2 := lower (Hashlib.md5_hexdigest (val1 ++ SIGNATURE_MD5)) in
  slice 20 32 val2 ++ slice 0 10 val2 ++ slice 4 6 val2.

(** [signKey] is whatever the session holds; [str + signKey] needs a [str]. *)
Definition __get_payload_sign (encryptedPayloadAndTimestamp : string)
    (signKey : json) : result string :=
  match str_add encryptedPayloadAndTimestamp signKey with
  | Ok material => Ok (upper (Hashlib.sha256_hexdigest material))
  | Err e => Err e
  end.

Definition __get_sign_from_timestamp (timestamp : option string)
  : result string :=
  if arg_none_or_empty timestamp then Ok ""
  else
    let t := arg_str timestamp in
    let timestamp_extended := upper (t ++ slice_from 6 t ++ slice_from 3 t) in
    let temporary_sign_key :=
      __get_temporary_sign_key_from_app_code APP_CODE in
    match __get_payload_sign timestamp_extended (JStr temporary_sign_key) with
    | Ok sign => Ok (upper sign)
    | Err e => Err e
    end.

Definition __encrypt_payload_using_key (self : Connection)
    (payload : option string) : result string :=
  if none_or_empty (enc_key self) then
    Err (MazdaException "Missing encryption key")
  else if arg_none_or_empty payload then Ok ""
  else
    called (encryptAES128CBCBufferToBase64String
              (arg_str payload) (enc_key self) IV).

Definition __get_sign_from_payload_and_timestamp (self : Connection)
    (payload timestamp : option string) : result string :=
  if arg_none_or_empty timestamp then Ok ""
  else if none_or_empty (sign_key self) then
    Err (MazdaException "Missing sign key")
  else
    let t := arg_str timestamp in
    match __encrypt_payload_using_key self payload with
    | Ok encrypted =>
        __get_payload_sign
          (encrypted ++ t ++ slice_from 6 t ++ slice_from 3 t) (sign_key self)
    | Err e => Err e
    end.

Definition __decrypt_payload_using_app_code (payload : json) : result json :=
  match called (b64decode payload) with
  | Ok buf =>
      let key := __get_decryption_key_from_app_code in
      match called (decryptAES128CBCBufferToString buf (JStr key) IV) with
      | Ok decrypted => called (json_loads decrypted)
      | Err e => Err e
      end
  | Err e => Err e
  end.

Definition __decrypt_payload_using_key (self : Connection) (payload : json)
  : result json :=
  if none_or_empty (enc_key self) then
    Err (MazdaException "Missing encryption key")
  else
    match called (b64decode payload) with
    | Ok buf =>
        match called (decryptAES128CBCBufferToString buf (enc_key self) IV) with
        | Ok decrypted => called (json_loads decrypted)
        | Err e => Err e
        end
    | Err e => Err e
    end.

Definition __encrypt_payload_with_public_key (password : string)
    (publicKey : json) : M string :=
  timestamp <- __get_timestamp_str ;;
  encryptedBuffer <-
    lift (called (encryptRSAECBPKCS1Padding
                    (password ++ ":" ++ timestamp) publicKey)) ;;
  ret (b64encode encryptedBuffer).

(** Line 123: [(" attempt #" + (num_retries + 1)) if (num_retries > 0) else ""] *)
Definition retry_message (num_retries : Z) : result string :=
  if num_retries >? 0
  then str_add " attempt #" (JNum (inject_Z (num_retries + 1)))
  else Ok "".

(** [login], lines 209 to 248: the two requests of the handshake, up to
    the parsed reply of the second. *)
Definition login_exchange : M json :=
  self <- get_self ;;
  logger_debug ("Logging in as " ++ email self) ;;
  logger_debug "Retrieving public key to encrypt password" ;;
  encryption_key_response_json <-
    session_request
      (mkRequest "GET" (USHER_URL ++ "system/encryptionKey")
         [("appId", JStr "MazdaApp"); ("locale", JStr "en-US");
          ("deviceId", JStr "ACCT1195961580");
          ("sdkVersion", JStr "11.2.0000.002")]
         [("User-Agent", JStr USER_AGENT_USHER_API)] "" []) ;;
  data <- lift (getitem encryption_key_response_json "data") ;;
  public_key <- lift (getitem data "publicKey") ;;
  self <- get_self ;;
  encrypted_password <-
    __encrypt_payload_with_public_key (password self) public_key ;;
  data <- lift (getitem encryption_key_response_json "data") ;;
  version_prefix <- lift (getitem data "versionPrefix") ;;
  logger_debug "Sending login request" ;;
  prefixed <-
    lift (match version_prefix with
          | JStr v => Ok (v ++ encrypted_password)
          | _ => Err TypeError
          end) ;;
  self <- get_self ;;
  session_request
    (mkRequest "POST" (USHER_URL ++ "user/login") []
       [("User-Agent", JStr USER_AGENT_USHER_API)] ""
       [("appId", JStr "MazdaApp"); ("deviceId", JStr "ACCT1195961580");
        ("locale", JStr "en-US"); ("password", JStr prefixed);
        ("sdkVersion", JStr "11.2.0000.002");
        ("userId", JStr (email self)); ("userIdType", JStr "email")]).

(** [login], lines 250 to 259: the reply's status decides. *)
Definition login_classify (login_response_json : json) : M unit :=
  status <- lift (getitem login_response_json "status") ;;
  if eq_str status "INVALID_CREDENTIAL" then
    raise (MazdaAuthenticationException "Invalid email or password")
  else if eq_str status "USER_LOCKED" then
    raise (MazdaAccountLockedException "Account has been locked")
  else if negb (eq_str status "OK") then
    raise (MazdaException "Login failed")
  else
    self <- get_self ;;
    logger_debug ("Successfully logged in as " ++ email self) ;;
    data <- lift (getitem login_response_json "data") ;;
    token <- lift (getitem data "accessToken") ;;
    set_attr set_access_token token ;;
    data <- lift (getitem login_response_json "data") ;;
    expiration <- lift (getitem data "accessTokenExpirationTs") ;;
    set_attr set_access_token_expiration_ts expiration.

Definition login : M unit :=
  scoped EvLogin (
    login_response_json <- login_exchange ;;
    login_classify login_response_json).

Definition __ensure_token_is_valid : M unit :=
  self <- get_self ;;
  if is_none (access_token self) then login
  else if is_none (access_token_expiration_ts self) then login
  else
    now <- time_time ;;
    expired <- lift (le_float (access_token_expiration_ts self) now) ;;
    if expired : bool then login else ret tt.

(** [__send_api_request], lines 138 to 174: the request to send, its
    headers signed. *)
Definition build_request (method uri : string)
    (query_dict body_dict : pydict) (needs_auth : bool) : M http_request :=
  timestamp <- __get_timestamp_str_ms ;;
  self <- get_self ;;
  query <-
    match query_dict with
    | [] => ret ("", [])
    | _ :: _ =>
        let original_query_str := urlencode query_dict in
        params <-
          lift (__encrypt_payload_using_key self (Some original_query_str)) ;;
        ret (original_query_str, [("params", JStr params)])
    end ;;
  let original_query_str := fst query in
  let encrypted_query_dict : pydict := snd query in
  body <-
    match body_dict with
    | [] => ret ("", "")
    | _ :: _ =>
        let original_body_str := json_dumps body_dict in
        encrypted <-
          lift (__encrypt_payload_using_key self (Some original_body_str)) ;;
        ret (original_body_str, encrypted)
    end ;;
  let original_body_str := fst body in
  let encrypted_body_Str := snd body in
  let headers : pydict :=
    [("device-id", JStr DEVICE_ID); ("app-code", JStr APP_CODE);
     ("app-os", JStr APP_OS); ("user-agent", JStr USER_AGENT_BASE_API);
     ("app-version", JStr APP_VERSION); ("app-unique-id", JStr APP_PACKAGE_ID);
     ("region", JStr "us");
     ("access-token", if needs_auth then access_token self else JStr "");
     ("language", JStr "en-US"); ("locale", JStr "en-US");
     ("X-acf-sensor-data", JStr ""); ("req-id", JStr ("req_" ++ timestamp));
     ("timestamp", JStr timestamp)] in
  headers <-
    (if contains "checkVersion" uri then
       sign <- lift (__get_sign_from_timestamp (Some timestamp)) ;;
       ret (headers ++ [("sign", JStr sign)])%list
     else if String.eqb method "GET" then
       sign <- lift (__get_sign_from_payload_and_timestamp self
                       (Some original_query_str) (Some timestamp)) ;;
       ret (headers ++ [("sign", JStr sign)])%list
     else if String.eqb method "POST" then
       sign <- lift (__get_sign_from_payload_and_timestamp self
                       (Some original_body_str) (Some timestamp)) ;;
       ret (headers ++ [("sign", JStr sign)])%list
     else ret headers) ;;
  ret (mkRequest method (BASE_URL ++ uri) [] headers encrypted_body_Str []).

(** [__send_api_request], lines 180 to 190: what the reply amounts to. *)
Definition read_reply (uri : string) (response_json : json) : M json :=
  state <- lift (getitem response_json "state") ;;
  if eq_str state "S" then
    payload <- lift (getitem response_json "payload") ;;
    if contains "checkVersion" uri then
      lift (__decrypt_payload_using_app_code payload)
    else
      self <- get_self ;;
      lift (__decrypt_payload_using_key self payload)
  else
    errorCode <- lift (getitem response_json "errorCode") ;;
    if eq_int errorCode 600001 then
      raise (MazdaAPIEncryptionException "Server rejected encrypted request")
    else if eq_int errorCode 600002 then
      raise (MazdaTokenExpiredException "Token expired")
    else raise (MazdaException "Request failed for an unknown reason").

Definition __send_api_request (method uri : string)
    (query_dict body_dict : pydict) (needs_keys needs_auth : bool) : M json :=
  request <- build_request method uri query_dict body_dict needs_auth ;;
  response_json <- session_request request ;;
  read_reply uri response_json.

(** The bodies of the methods that call one another, each taking what it
    calls as an argument; the knot is tied by [__api_request_retry]. *)
Definition retrieve_keys_with
    (api_request : string -> string -> pydict -> pydict -> bool -> bool -> M json)
  : M unit :=
  scoped EvRetrieveKeys (
    logger_debug "Retrieving encryption keys" ;;
    response <- api_request "POST" "service/checkVersion" [] [] false false ;;
    logger_debug "Successfully retrieved encryption keys" ;;
    encKey <- lift (getitem response "encKey") ;;
    set_attr set_enc_key encKey ;;
    signKey <- lift (getitem response "signKey") ;;
    set_attr set_sign_key signKey).

Definition ensure_keys_present_with (__retrieve_keys : M unit) : M unit :=
  self <- get_self ;;
  if is_none (enc_key self) || is_none (sign_key self)
  then __retrieve_keys
  else ret tt.

(** One unit of fuel per activation of [__api_request_retry]. *)
Fixpoint __api_request_retry (fuel : nat) (method uri : string)
    (query_dict body_dict : pydict) (needs_keys needs_auth : bool)
    (num_retries : Z) {struct fuel} : M json :=
  match fuel with
  | O => out_of_fuel
  | S fuel' =>
      let api_request := fun m u q b nk na =>
        __api_request_retry fuel' m u q b nk na 0 in
      let __retrieve_keys := retrieve_keys_with api_request in
      let __ensure_keys_present := ensure_keys_present_with __retrieve_keys in
      emit (EvAttempt uri num_retries) ;;
      if num_retries >? MAX_RETRIES then
        raise (MazdaException "Request exceeded max number of retries")
      else
        (if needs_keys then __ensure_keys_present else ret tt) ;;
        (if needs_auth then __ensure_token_is_valid else ret tt) ;;
        retry_message <- lift (retry_message num_retries) ;;
        logger_debug ("Sending " ++ method ++ " request to " ++ uri
                      ++ retry_message) ;;
        try_except
          (__send_api_request method uri query_dict body_dict
             needs_keys needs_auth)
          (fun e =>
             match e with
             | MazdaAPIEncryptionException _ =>
                 Some (logger_debug "Server reports request was not encrypted properly. Retrieving new encryption keys." ;;
                       __retrieve_keys ;;
                       __api_request_retry fuel' method uri query_dict
                         body_dict needs_keys needs_auth (num_retries + 1))
             | MazdaTokenExpiredException _ =>
                 Some (logger_debug "Server reports access token was expired. Retrieving new access token." ;;
                       login ;;
                       __api_request_retry fuel' method uri query_dict
                         body_dict needs_keys needs_auth (num_retries + 1))
             | _ => None
             end)
  end.

Definition api_request (fuel : nat) (method uri : string)
    (query_dict body_dict : pydict) (needs_keys needs_auth : bool) : M json :=
  __api_request_retry fuel method uri query_dict body_dict
    needs_keys needs_auth 0.

Definition __retrieve_keys (fuel : nat) : M unit :=
  retrieve_keys_with (api_request fuel).

Definition __ensure_keys_present (fuel : nat) : M unit :=
  ensure_keys_present_with (__retrieve_keys fuel).

End Methods.

(** ** AES-128 in CBC mode and base64

    What the spec says [crypto_utils] computes: AES-128 (FIPS 197) in CBC
    mode over the text padded to whole blocks (PKCS#7), and base64
    (RFC 4648).  The bench below runs the model on them.  A byte is an
    [ascii], eight bits from the least significant one. *)
Module Aes.

Definition zero : ascii := Ascii false false false false false false false false.
Definition one : ascii := Ascii true false false false false false false false.

Definition xor8 (a b : ascii) : ascii :=
  match a, b with
  | Ascii a0 a1 a2 a3 a4 a5 a6 a7, Ascii b0 b1 b2 b3 b4 b5 b6 b7 =>
      Ascii (xorb a0 b0) (xorb a1 b1) (xorb a2 b2) (xorb a3 b3)
            (xorb a4 b4) (xorb a5 b5) (xorb a6 b6) (xorb a7 b7)
  end.

(** Multiplication by [x] in GF(2^8) modulo [x^8 + x^4 + x^3 + x + 1] *)
Definition xtime (a : ascii) : ascii :=
  match a with
  | Ascii a0 a1 a2 a3 a4 a5 a6 a7 =>
      Ascii a7 (xorb a0 a7) a1 (xorb a2 a7) (xorb a3 a7) a4 a5 a6
  end.

(** The product in GF(2^8): [b] times [a], bit by bit of [b] *)
Definition gmul (a b : ascii) : ascii :=
  match b with
  | Ascii b0 b1 b2 b3 b4 b5 b6 b7 =>
      let pick (bit : bool) (x : ascii) := if bit then x else zero in
      let a1 := xtime a in
      let a2 := xtime a1 in
      let a3 := xtime a2 in
      let a4 := xtime a3 in
      let a5 := xtime a4 in
      let a6 := xtime a5 in
      let a7 := xtime a6 in
      xor8 (pick b0 a)
        (xor8 (pick b1 a1)
           (xor8 (pick b2 a2)
              (xor8 (pick b3 a3)
                 (xor8 (pick b4 a4)
                    (xor8 (pick b5 a5)
                       (xor8 (pick b6 a6) (pick b7 a7)))))))
  end.

Definition all_bytes : list ascii := map ascii_of_nat (seq 0 256).

(** The inverse in GF(2^8), with 0 for 0 *)
Definition ginv (a : ascii) : ascii :=
  match find (fun x => Ascii.eqb (gmul a x) one) all_bytes with
  | Some x => x
  | None => zero
  end.

Definition rotl8 (a : ascii) : ascii :=
  match a with
  | Ascii a0 a1 a2 a3 a4 a5 a6 a7 => Ascii a7 a0 a1 a2 a3 a4 a5 a6
  end.

(** The affine map of the S-box: [b + rotl b + rotl^2 b + rotl^3 b +
    rotl^4 b + 0x63] *)
Definition affine (b : ascii) : ascii :=
  let r1 := rotl8 b in
  let r2 := rotl8 r1 in
  let r3 := rotl8 r2 in
  let r4 := rotl8 r3 in
  xor8 b (xor8 r1 (xor8 r2 (xor8 r3 (xor8 r4 (ascii_of_nat 99))))).

Definition sbox_table : list ascii :=
  Eval vm_compute in map (fun a => affine (ginv a)) all_bytes.

Definition sbox (a : ascii) : ascii := nth (nat_of_ascii a) sbox_table zero.

Definition inv_sbox_table : list ascii :=
  Eval vm_compute in
    map (fun y =>
           match find (fun x => Ascii.eqb (sbox x) y) all_bytes with
           | Some x => x
           | None => zero
           end) all_bytes.

Definition inv_sbox (a : ascii) : ascii :=
  nth (nat_of_ascii a) inv_sbox_table zero.

(** A column of the state and the state, column by column *)
Definition word : Type := ascii * ascii * ascii * ascii.
Definition block : Type := word * word * word * word.

Definition map_word (f : ascii -> ascii) (w : word) : word :=
  let '(a, b, c, d) := w in (f a, f b, f c, f d).

Definition xor_word (v w : word) : word :=
  let '(a, b, c, d) := v in
  let '(a', b', c', d') := w in
  (xor8 a a', xor8 b b', xor8 c c', xor8 d d').

Definition map_block (f : word -> word) (s : block) : block :=
  let '(a, b, c, d) := s in (f a, f b, f c, f d).

Definition add_round_key (s k : block) : block :=
  let '(a, b, c, d) := s in
  let '(a', b', c', d') := k in
  (xor_word a a', xor_word b b', xor_word c c', xor_word d d').

Definition sub_bytes : block -> block := map_block (map_word sbox).
Definition inv_sub_bytes : block -> block := map_block (map_word inv_sbox).

Definition shift_rows (s : block) : block :=
  let '((a0, a1, a2, a3), (b0, b1, b2, b3),
        (c0, c1, c2, c3), (d0, d1, d2, d3)) := s in
  ((a0, b1, c2, d3), (b0, c1, d2, a3), (c0, d1, a2, b3), (d0, a1, b2, c3)).

Definition inv_shift_rows (s : block) : block :=
  let '((a0, a1, a2, a3), (b0, b1, b2, b3),
        (c0, c1, c2, c3), (d0, d1, d2, d3)) := s in
  ((a0, d1, c2, b3), (b0, a1, d2, c3), (c0, b1, a2, d3), (d0, c1, b2, a3)).

Definition m2 (a : ascii) : ascii := xtime a.
Definition m3 (a : ascii) : ascii := xor8 (xtime a) a.
Definition m9 (a : ascii) : ascii := xor8 (xtime (xtime (xtime a))) a.
Definition m11 (a : ascii) : ascii :=
  xor8 (xtime (xtime (xtime a))) (xor8 (xtime a) a).
Definition m13 (a : ascii) : ascii :=
  xor8 (xtime (xtime (xtime a))) (xor8 (xtime (xtime a)) a).
Definition m14 (a : ascii) : ascii :=
  xor8 (xtime (xtime (xtime a))) (xor8 (xtime (xtime a)) (xtime a)).

Definition mix_column (w : word) : word :=
  let '(a, b, c, d) := w in
  (xor8 (m2 a) (xor8 (m3 b) (xor8 c d)),
   xor8 a (xor8 (m2 b) (xor8 (m3 c) d)),
   xor8 a (xor8 b (xor8 (m2 c) (m3 d))),
   xor8 (m3 a) (xor8 b (xor8 c (m2 d)))).

Definition inv_mix_column (w : word) : word :=
  let '(a, b, c, d) := w in
  (xor8 (m14 a) (xor8 (m11 b) (xor8 (m13 c) (m9 d))),
   xor8 (m9 a) (xor8 (m14 b) (xor8 (m11 c) (m13 d))),
   xor8 (m13 a) (xor8 (m9 b) (xor8 (m14 c) (m11 d))),
   xor8 (m11 a) (xor8 (m13 b) (xor8 (m9 c) (m14 d)))).

Definition mix_columns : block -> block := map_block mix_column.
Definition inv_mix_columns : block -> block := map_block inv_mix_column.

(** The key schedule: the next round key from the last one and the round
    constant *)
Definition next_round_key (k : block) (rc : ascii) : block :=
  let '(w0, w1, w2, w3) := k in
  let '(a, b, c, d) := w3 in
  let t := xor_word (map_word sbox (b, c, d, a)) (rc, zero, zero, zero) in
  let w0' := xor_word w0 t in
  let w1' := xor_word w1 w0' in
  let w2' := xor_word w2 w1' in
  let w3' := xor_word w3 w2' in
  (w0', w1', w2', w3').

Fixpoint expand (rounds : nat) (k : block) (rc : ascii) : list block :=
  match rounds with
  | O => []
  | S rounds' =>
      let k' := next_round_key k rc in
      k' :: expand rounds' k' (xtime rc)
  end.

(** The eleven round keys of AES-128 *)
Definition round_keys (key : block) : list block :=
  key :: expand 10 key one.

(** The rounds after the first key addition, the last one without
    [mix_columns] *)
Fixpoint rounds (ks : list block) (s : block) : block :=
  match ks with
  | [] => s
  | [k] => add_round_key (shift_rows (sub_bytes s)) k
  | k :: ks' =>
      rounds ks' (add_round_key (mix_columns (shift_rows (sub_bytes s))) k)
  end.

Fixpoint inv_rounds (ks : list block) (s : block) : block :=
  match ks with
  | [] => s
  | [k] => inv_sub_bytes (inv_shift_rows (add_round_key s k))
  | k :: ks' =>
      inv_sub_bytes
        (inv_shift_rows
           (inv_mix_columns (add_round_key (inv_rounds ks' s) k)))
  end.

Definition encrypt_block (ks : list block) (s : block) : block :=
  match ks with
  | [] => s
  | k0 :: ks' => rounds ks' (add_round_key s k0)
  end.

Definition decrypt_block (ks : list block) (s : block) : block :=
  match ks with
  | [] => s
  | k0 :: ks' => add_round_key (inv_rounds ks' s) k0
  end.

(** CBC: each block is added to the last ciphertext block, first to the
    initialisation vector. *)
Fixpoint cbc_encrypt (ks : list block) (iv : block) (ps : list block)
  : list block :=
  match ps with
  | [] => []
  | p :: ps' =>
      let c := encrypt_block ks (add_round_key p iv) in
      c :: cbc_encrypt ks c ps'
  end.

Fixpoint cbc_decrypt (ks : list block) (iv : block) (cs : list block)
  : list block :=
  match cs with
  | [] => []
  | c :: cs' => add_round_key (decrypt_block ks c) iv :: cbc_decrypt ks c cs'
  end.

(** Sixteen bytes as a block and back *)
Definition word_of (l : list ascii) : word :=
  (nth 0 l zero, nth 1 l zero, nth 2 l zero, nth 3 l zero).

Definition block_of (l : list ascii) : block :=
  (word_of l, word_of (skipn 4 l), word_of (skipn 8 l), word_of (skipn 12 l)).

Definition bytes_of_word (w : word) : list ascii :=
  let '(a, b, c, d) := w in [a; b; c; d].

Definition bytes_of_block (s : block) : list ascii :=
  let '(a, b, c, d) := s in
  bytes_of_word a ++ bytes_of_word b ++ bytes_of_word c ++ bytes_of_word d.

Fixpoint blocks_of (count : nat) (l : list ascii) : list block :=
  match count with
  | O => []
  | S count' => block_of l :: blocks_of count' (skipn 16 l)
  end.

Definition bytes_of_blocks (bs : list block) : list ascii :=
  flat_map bytes_of_block bs.

(** PKCS#7: between 1 and 16 bytes, each the number of bytes added *)
Definition pad (l : list ascii) : list ascii :=
  let n := (16 - List.length l mod 16)%nat in
  l ++ repeat (ascii_of_nat n) n.

Definition unpad (l : list ascii) : option (list ascii) :=
  match rev l with
  | [] => None
  | last :: _ =>
      let n := nat_of_ascii last in
      let keep := (List.length l - n)%nat in
      if (Nat.leb 1 n && Nat.leb n 16 && Nat.leb n (List.length l)
          && forallb (Ascii.eqb last) (skipn keep l))%bool
      then Some (firstn keep l)
      else None
  end.

(** AES-128-CBC over bytes; the key and the vector are sixteen bytes. *)
Definition encrypt (key iv text : list ascii) : list ascii :=
  let padded := pad text in
  bytes_of_blocks
    (cbc_encrypt (round_keys (block_of key)) (block_of iv)
       (blocks_of (List.length padded / 16) padded)).

Definition decrypt (key iv data : list ascii) : option (list ascii) :=
  if (Nat.eqb (List.length data mod 16) 0 && negb (Nat.eqb (List.length data) 0))%bool
  then
    unpad (bytes_of_blocks
             (cbc_decrypt (round_keys (block_of key)) (block_of iv)
                (blocks_of (List.length data / 16) data)))
  else None.

End Aes.

(** Base64 with the standard alphabet and padding.  Decoding accepts what
    encoding produces and fails on anything else. *)
Module Base64.

(** Six bits, the most significant first *)
Definition sextet : Type := bool * bool * bool * bool * bool * bool.

Definition bit (b : bool) (weight : nat) : nat := if b then weight else 0.

Definition index (s : sextet) : nat :=
  let '(b5, b4, b3, b2, b1, b0) := s in
  (bit b5 32 + bit b4 16 + bit b3 8 + bit b2 4 + bit b1 2 + bit b0 1)%nat.

Definition alphabet : list ascii :=
  list_ascii_of_string
    "ABCDEFGHIJKLMNOPQRSTUVWXYZabcdefghijklmnopqrstuvwxyz0123456789+/".

Definition char_of (s : sextet) : ascii := nth (index s) alphabet "A"%char.

Definition bools : list bool := [false; true].

Definition all_sextets : list sextet :=
  Eval vm_compute in
    list_prod (list_prod (list_prod (list_prod (list_prod bools bools) bools)
                            bools) bools) bools.

Definition sextet_of (c : ascii) : option sextet :=
  find (fun s => Ascii.eqb (char_of s) c) all_sextets.

Definition equals : ascii := "="%char.

Definition encode3 (a b c : ascii) : list ascii :=
  match a, b, c with
  | Ascii a0 a1 a2 a3 a4 a5 a6 a7, Ascii b0 b1 b2 b3 b4 b5 b6 b7,
    Ascii c0 c1 c2 c3 c4 c5 c6 c7 =>
      [char_of (a7, a6, a5, a4, a3, a2); char_of (a1, a0, b7, b6, b5, b4);
       char_of (b3, b2, b1, b0, c7, c6); char_of (c5, c4, c3, c2, c1, c0)]
  end.

Definition encode2 (a b : ascii) : list ascii :=
  match a, b with
  | Ascii a0 a1 a2 a3 a4 a5 a6 a7, Ascii b0 b1 b2 b3 b4 b5 b6 b7 =>
      [char_of (a7, a6, a5, a4, a3, a2); char_of (a1, a0, b7, b6, b5, b4);
       char_of (b3, b2, b1, b0, false, false); equals]
  end.

Definition encode1 (a : ascii) : list ascii :=
  match a with
  | Ascii a0 a1 a2 a3 a4 a5 a6 a7 =>
      [char_of (a7, a6, a5, a4, a3, a2);
       char_of (a1, a0, false, false, false, false); equals; equals]
  end.

Fixpoint encode (l : list ascii) : list ascii :=
  match l with
  | [] => []
  | [a] => encode1 a
  | [a; b] => encode2 a b
  | a :: b :: c :: rest => (encode3 a b c ++ encode rest)%list
  end.

Definition decode3 (s1 s2 s3 s4 : sextet) : list ascii :=
  let '(a7, a6, a5, a4, a3, a2) := s1 in
  let '(a1, a0, b7, b6, b5, b4) := s2 in
  let '(b3, b2, b1, b0, c7, c6) := s3 in
  let '(c5, c4, c3, c2, c1, c0) := s4 in
  [Ascii a0 a1 a2 a3 a4 a5 a6 a7; Ascii b0 b1 b2 b3 b4 b5 b6 b7;
   Ascii c0 c1 c2 c3 c4 c5 c6 c7].

Fixpoint decode (l : list ascii) : option (list ascii) :=
  match l with
  | [] => Some []
  | c1 :: c2 :: c3 :: c4 :: rest =>
      match sextet_of c1, sextet_of c2 with
      | Some s1, Some s2 =>
          if Ascii.eqb c4 equals then
            match rest with
            | [] =>
                if Ascii.eqb c3 equals then
                  Some (firstn 1 (decode3 s1 s2 s1 s1))
                else
                  match sextet_of c3 with
                  | Some s3 => Some (firstn 2 (decode3 s1 s2 s3 s1))
                  | None => None
                  end
            | _ :: _ => None
            end
          else
            match sextet_of c3, sextet_of c4, decode rest with
            | Some s3, Some s4, Some bytes =>
                Some (decode3 s1 s2 s3 s4 ++ bytes)%list
            | _, _, _ => None
            end
      | _, _ => None
      end
  | _ => None
  end.

End Base64.

(** Modelled from the spec: [pymazda/crypto_utils.py] is not part of the
    verified file.  Its two AES functions are AES-128-CBC with PKCS#7
    padding, the ciphertext of the first in base64; the key and the vector
    are the sixteen characters of a [str].  [base64] is here as well. *)
Module CryptoUtils.

Definition bytes (s : string) : list ascii := list_ascii_of_string s.
Definition text (l : list ascii) : string := string_of_list_ascii l.

Definition sizes_ok (key iv : string) : bool :=
  Nat.eqb (String.length key) 16 && Nat.eqb (String.length iv) 16.

Definition b64encode (buf : string) : string :=
  text (Base64.encode (bytes buf)).

Definition b64decode (v : json) : libcall string :=
  match v with
  | JStr s =>
      match Base64.decode (bytes s) with
      | Some buf => Gives (text buf)
      | None => Fails "binascii.Error"
      end
  | _ => Fails "TypeError"
  end.

Definition encryptAES128CBCBufferToBase64String (buf : string) (key : json)
    (iv : string) : libcall string :=
  match key with
  | JStr k =>
      if sizes_ok k iv
      then Gives (b64encode (text (Aes.encrypt (bytes k) (bytes iv) (bytes buf))))
      else Fails "ValueError"
  | _ => Fails "TypeError"
  end.

Definition decryptAES128CBCBufferToString (buf : string) (key : json)
    (iv : string) : libcall string :=
  match key with
  | JStr k =>
      if sizes_ok k iv
      then
        match Aes.decrypt (bytes k) (bytes iv) (bytes buf) with
        | Some plain => Gives (text plain)
        | None => Fails "ValueError"
        end
      else Fails "ValueError"
  | _ => Fails "TypeError"
  end.

End CryptoUtils.

(** ** A bench to run the model on

    The libraries, to compute with: the cipher and base64 of
    [CryptoUtils], and stand-ins for [json] (a printer, and a parser that
    knows a few documents), [urlencode] and RSA.  The theorems below hold
    for every [Externals]; the bench supplies the concrete runs. *)
Module Bench.

Definition quote : string := String (ascii_of_nat 34) EmptyString.

(** The text of a value, as [json.dumps] lays it out. *)
Fixpoint json_text (v : json) : string :=
  match v with
  | JNull => "null"
  | JBool true => "true"
  | JBool false => "false"
  | JNum q => str_of_Z (Qnum q)
  | JStr s => quote ++ s ++ quote
  | JArr items =>
      let fix items_text (l : list json) : string :=
        match l with
        | [] => ""
        | [x] => json_text x
        | x :: rest => json_text x ++ ", " ++ items_text rest
        end in
      "[" ++ items_text items ++ "]"
  | JObj fields =>
      let fix fields_text (l : list (string * json)) : string :=
        match l with
        | [] => ""
        | [(k, x)] => quote ++ k ++ quote ++ ": " ++ json_text x
        | (k, x) :: rest =>
            quote ++ k ++ quote ++ ": " ++ json_text x ++ ", "
            ++ fields_text rest
        end in
      "{" ++ fields_text fields ++ "}"
  end.

(** The documents the bench's [json.loads] knows. *)
Definition both_keys : json :=
  JObj [("encKey", JStr "0123456789abcdef"); ("signKey", JStr "fedcba9876543210")].
Definition enc_key_only : json :=
  JObj [("encKey", JStr "0123456789abcdef")].
Definition empty_object : json := JObj [].

Definition corpus : list json := [both_keys; enc_key_only; empty_object].

Definition loads (text : string) : libcall json :=
  match find (fun v => String.eqb (json_text v) text) corpus with
  | Some v => Gives v
  | None => Fails "JSONDecodeError"
  end.

Fixpoint form_text (d : pydict) : string :=
  match d with
  | [] => ""
  | [(k, JStr v)] => k ++ "=" ++ v
  | [(k, v)] => k ++ "=" ++ json_text v
  | (k, v) :: rest =>
      k ++ "=" ++ match v with JStr s => s | _ => json_text v end
      ++ "&" ++ form_text rest
  end.

Definition rsa (message : string) (publicKey : json) : libcall string :=
  match publicKey with
  | JStr pem => Gives (pem ++ "|" ++ message)
  | _ => Fails "ValueError"
  end.

#[export] Instance libs : Externals := {|
  json_loads := loads;
  json_dumps := fun d => json_text (JObj d);
  urlencode := form_text;
  b64decode := CryptoUtils.b64decode;
  b64encode := CryptoUtils.b64encode;
  encryptAES128CBCBufferToBase64String :=
    CryptoUtils.encryptAES128CBCBufferToBase64String;
  decryptAES128CBCBufferToString :=
    CryptoUtils.decryptAES128CBCBufferToString;
  encryptRSAECBPKCS1Padding := rsa
|}.

(** Replies of the server *)
Definition failure (errorCode : Z) : libcall json :=
  Gives (JObj [("state", JStr "F"); ("errorCode", JNum (inject_Z errorCode))]).

(** A reply in state [S], the payload encrypted under [key] *)
Definition success_under (key : string) (payload : json) : libcall json :=
  Gives (JObj [("state", JStr "S");
               ("payload",
                JStr (CryptoUtils.b64encode
                        (CryptoUtils.text
                           (Aes.encrypt (CryptoUtils.bytes key)
                              (CryptoUtils.bytes IV)
                              (CryptoUtils.bytes (json_text payload))))))]).

(** The reply to the key request, encrypted under the key of the
    application code *)
Definition success (payload : json) : libcall json :=
  success_under __get_decryption_key_from_app_code payload.

Definition session_key : string := "0123456789abcdef".

Definition public_key_reply : libcall json :=
  Gives (JObj [("data", JObj [("publicKey", JStr "PEM");
                           ("versionPrefix", JStr "v1")])]).

Definition login_reply (status : string) : libcall json :=
  Gives (JObj [("status", JStr status);
            ("data", JObj [("accessToken", JStr "token");
                           ("accessTokenExpirationTs", JNum (inject_Z 2000))])]).

(** A fresh session at time 1000 with the given replies to come. *)
Definition fresh (replies : list (libcall json)) : state :=
  mkState (__init__ "user@example.com" "pw") replies
          (fun _ => inject_Z 1000) 0 [].

(** A session that holds keys and a token valid until 2000. *)
Definition ready (replies : list (libcall json)) : state :=
  mkState (mkConnection "user@example.com" "pw"
             (JStr "0123456789abcdef") (JStr "fedcba9876543210")
             (JStr "token") (JNum (inject_Z 2000)))
          replies (fun _ => inject_Z 1000) 0 [].

(** The server rejects the encryption, hands out keys, then reports the
    token expired, and so on in turn. *)
Definition alternating : list (libcall json) :=
  [failure 600001; success both_keys;
   failure 600002; public_key_reply; login_reply "OK";
   failure 600001; success both_keys;
   failure 600002; public_key_reply; login_reply "OK";
   success_under session_key empty_object].

End Bench.

(** ** The vocabulary of the properties *)

(** A value a timestamp field can hold: [None] or a number. *)
Definition timestamp_or_none (v : json) : Prop :=
  match v with
  | JNull | JNum _ => True
  | _ => False
  end.

(** The test of [__ensure_token_is_valid] at the time [now] *)
Definition token_invalid (c : Connection) (now : Q) : bool :=
  is_none (access_token c) ||
  is_none (access_token_expiration_ts c) ||
  match access_token_expiration_ts c with
  | JNum expiration => Qle_bool expiration now
  | _ => false
  end.

Section Vocabulary.
Context {X : Externals}.

(** What an activation of [__api_request_retry] within the budget does
    before line 123: lines 118 to 121, the activation recorded first. *)
Definition before_sending (fuel : nat) (uri : string)
    (needs_keys needs_auth : bool) (num_retries : Z) : M unit :=
  emit (EvAttempt uri num_retries) ;;
  (if needs_keys then __ensure_keys_present fuel else ret tt) ;;
  (if needs_auth then __ensure_token_is_valid else ret tt).

(** The two [except] clauses of [__api_request_retry], lines 128 to 135 *)
Definition recovery (fuel : nat) (method uri : string)
    (query_dict body_dict : pydict) (needs_keys needs_auth : bool)
    (num_retries : Z) (e : exn) : option (M json) :=
  match e with
  | MazdaAPIEncryptionException _ =>
      Some (__retrieve_keys fuel ;;
            __api_request_retry fuel method uri query_dict body_dict
              needs_keys needs_auth (num_retries + 1))
  | MazdaTokenExpiredException _ =>
      Some (login ;;
            __api_request_retry fuel method uri query_dict body_dict
              needs_keys needs_auth (num_retries + 1))
  | _ => None
  end.

(** The two keys are both set or both unset. *)
Definition keys_together (c : Connection) : Prop :=
  is_none (enc_key c) = is_none (sign_key c).

(** A response to the key request that holds both keys, or [None] for
    both *)
Definition holds_both_keys (v : json) : Prop :=
  exists encKey signKey,
    getitem v "encKey" = Ok encKey /\
    getitem v "signKey" = Ok signKey /\
    is_none encKey = is_none signKey.

(** Replies of which each one that decrypts under the key of the
    application code holds both keys *)
Definition well_keyed (replies : list (libcall json)) : Prop :=
  forall resp payload v,
    In (Gives resp) replies ->
    getitem resp "payload" = Ok payload ->
    __decrypt_payload_using_app_code payload = Ok v ->
    holds_both_keys v.

(** A session whose keys go together, in a world of such replies *)
Definition keyed (s : state) : Prop :=
  keys_together (self s) /\ well_keyed (inbox s).

Definition preserves_keyed {A} (m : M A) : Prop :=
  forall s, keyed s -> keyed (snd (m s)).

End Vocabulary.

(** The failures the pipeline recovers from *)
Definition recoverable (e : exn) : bool :=
  match e with
  | MazdaAPIEncryptionException _ | MazdaTokenExpiredException _ => true
  | _ => false
  end.

(** The failure of line 116 *)
Definition retries_exceeded : exn :=
  MazdaException "Request exceeded max number of retries".

(** An event other than a request of this activation's own *)
Definition not_a_request (e : event) : Prop :=
  match e with
  | EvRequest _ => False
  | _ => True
  end.

(** The requests an activation sends itself: those of the calls it makes
    lie inside the events of the calls. *)
Fixpoint own_requests (l : list event) : nat :=
  match l with
  | [] => 0
  | EvRequest _ :: rest => S (own_requests rest)
  | _ :: rest => own_requests rest
  end.

(** Fuel that is enough whatever the replies are: two activations for
    each reply still to come, and two more. *)
Definition enough_fuel (s : state) : nat :=
  (2 * List.length (inbox s) + 2)%nat.

(** The characters of [hexdigest()] and of its [upper()] *)
Definition lower_hex (c : ascii) : Prop :=
  In c (list_ascii_of_string "0123456789abcdef").
Definition upper_hex (c : ascii) : Prop :=
  In c (list_ascii_of_string "0123456789ABCDEF").

(** *** What a computation does to the state

    The shapes the lemmas on the methods take. *)

(**     A frame relates the state before a computation to the state after it
    and is blind to the clock and the trace.  A receptive frame is kept
    when a reply is received. *)
Record frame : Type := mkFrame {
  holds :> state -> state -> Prop;
  frame_refl : forall s, holds s s;
  frame_trans : forall s1 s2 s3, holds s1 s2 -> holds s2 s3 -> holds s1 s3;
  frame_trace_l : forall s s' t, holds (set_trace s t) s' -> holds s s';
  frame_trace_r : forall s s' t, holds s s' -> holds s (set_trace s' t);
  frame_ticks : forall s n, holds s (set_ticks s n)
}.

Definition receptive (R : frame) : Prop :=
  forall s reply rest, inbox s = reply :: rest -> R s (set_inbox s rest).

Definition respects (R : frame) {A} (m : M A) : Prop :=
  forall s, R s (snd (m s)).

(** The session is the same. *)
Definition same_self (s s' : state) : Prop := self s' = self s.

(** The two keys are the same. *)
Definition same_keys (s s' : state) : Prop :=
  enc_key (self s') = enc_key (self s) /\
  sign_key (self s') = sign_key (self s).

(** The replies still to come are the last of those that were to come. *)
Definition later_inbox (s s' : state) : Prop :=
  exists used, inbox s = (used ++ inbox s')%list.

(** Nothing was received and the session is the same. *)
Definition quiet (s s' : state) : Prop :=
  inbox s' = inbox s /\ self s' = self s.

Definition Self : frame.
Proof.
  refine (mkFrame same_self _ _ _ _ _); unfold same_self; simpl;
    try congruence; auto.
Defined.

Definition Keys : frame.
Proof.
  refine (mkFrame same_keys _ _ _ _ _); unfold same_keys; simpl; auto.
  intros s1 s2 s3 [-> ->] [-> ->]. auto.
Defined.

Definition Inbox : frame.
Proof.
  refine (mkFrame later_inbox _ _ _ _ _); unfold later_inbox; simpl; auto.
  - intros s. now exists [].
  - intros s1 s2 s3 [u1 H1] [u2 H2]. exists (u1 ++ u2)%list.
    now rewrite H1, H2, app_assoc.
  - intros s n. now exists [].
Defined.

Definition Quiet : frame.
Proof.
  refine (mkFrame quiet _ _ _ _ _); unfold quiet; simpl; auto.
  intros s1 s2 s3 [-> ->] [-> ->]. auto.
Defined.

(** A computation that never runs out of fuel *)
Definition finishes {A} (m : M A) : Prop :=
  forall s, fst (m s) <> OutOfFuel.

(** What a computation adds to the trace *)
Definition appends (P : event -> Prop) {A} (m : M A) : Prop :=
  forall s, exists added,
    trace (snd (m s)) = (trace s ++ added)%list /\ Forall P added.

(** What a computation may raise *)
Definition raises_only (P : exn -> Prop) {A} (m : M A) : Prop :=
  forall s e, fst (m s) = Raise e -> P e.

(** Any event at all *)
Definition any_event (e : event) : Prop := True.

(** A computation that sends at most [b] requests of its own *)
Definition sends_at_most (b : Z) {A} (m : M A) : Prop :=
  forall s, exists added,
    trace (snd (m s)) = (trace s ++ added)%list /\
    Z.of_nat (own_requests added) <= b.

(** * Properties *)

(** ** Strings and digests *)

Lemma string_length_append (a b : string) :
  String.length (a ++ b) = (String.length a + String.length b)%nat.
Proof.
  induction a as [|c a IH]; simpl; [reflexivity | now rewrite IH].
Qed.

Lemma length_string_of_list_ascii (l : list ascii) :
  String.length (string_of_list_ascii l) = List.length l.
Proof.
  induction l as [|c l IH]; simpl; [reflexivity | now rewrite IH].
Qed.

Lemma map_string_length (f : ascii -> ascii) (s : string) :
  String.length (map_string f s) = String.length s.
Proof.
  induction s as [|c s IH]; simpl; [reflexivity | now rewrite IH].
Qed.

Lemma list_of_map_string (f : ascii -> ascii) (s : string) :
  list_ascii_of_string (map_string f s) = map f (list_ascii_of_string s).
Proof.
  induction s as [|c s IH]; simpl; [reflexivity | now rewrite IH].
Qed.


Lemma upper_char_hex (c : ascii) : lower_hex c -> upper_hex (upper_char c).
Proof.
  unfold lower_hex, upper_hex. simpl. intros H.
  repeat (destruct H as [<- | H]; [vm_compute; tauto |]).
  contradiction.
Qed.

Lemma hex_digit_lower (n : Z) : lower_hex (Hashlib.hex_digit n).
Proof.
  unfold Hashlib.hex_digit.
  assert (Hb : 0 <= Z.land n 15 < 16).
  { change 15 with (Z.ones 4). rewrite Z.land_ones by lia.
    apply Z.mod_pos_bound. reflexivity. }
  assert (Hn : (Z.to_nat (Z.land n 15) < 16)%nat) by lia.
  generalize dependent (Z.to_nat (Z.land n 15)). intros k Hk.
  do 16 (destruct k as [|k]; [vm_compute; tauto |]).
  lia.
Qed.

Lemma hex_of_bytes_length (bs : list Z) :
  String.length (Hashlib.hex_of_bytes bs) = (2 * List.length bs)%nat.
Proof.
  unfold Hashlib.hex_of_bytes. rewrite length_string_of_list_ascii.
  induction bs as [|b bs IH]; simpl; [reflexivity | rewrite IH; lia].
Qed.

Lemma hex_of_bytes_lower (bs : list Z) :
  Forall lower_hex (list_ascii_of_string (Hashlib.hex_of_bytes bs)).
Proof.
  unfold Hashlib.hex_of_bytes. rewrite list_ascii_of_string_of_list_ascii.
  induction bs as [|b bs IH]; simpl; [constructor |].
  constructor; [apply hex_digit_lower |].
  constructor; [apply hex_digit_lower | exact IH].
Qed.

Lemma le_bytes_length (k : nat) (n : Z) :
  List.length (Hashlib.le_bytes k n) = k.
Proof.
  revert n; induction k as [|k IH]; intros n; simpl;
    [reflexivity | now rewrite IH].
Qed.

Lemma flat_map_length_const {A B} (f : A -> list B) (k : nat) (l : list A) :
  (forall a, List.length (f a) = k) ->
  List.length (flat_map f l) = (k * List.length l)%nat.
Proof.
  intros Hf. induction l as [|a l IH]; simpl; [lia |].
  rewrite List.length_app, Hf, IH. lia.
Qed.

Lemma sha256_words_length (msg : list Z) :
  List.length (Hashlib.sha256_words msg) = 8%nat.
Proof. reflexivity. Qed.

Lemma sha256_hexdigest_length (s : string) :
  String.length (Hashlib.sha256_hexdigest s) = 64%nat.
Proof.
  unfold Hashlib.sha256_hexdigest.
  rewrite hex_of_bytes_length.
  rewrite (flat_map_length_const _ 4).
  - now rewrite sha256_words_length.
  - intros a. unfold Hashlib.be_bytes.
    now rewrite List.length_rev, le_bytes_length.
Qed.

Lemma upper_sha256_shape (s : string) :
  String.length (upper (Hashlib.sha256_hexdigest s)) = 64%nat /\
  Forall upper_hex (list_ascii_of_string (upper (Hashlib.sha256_hexdigest s))).
Proof.
  split.
  - unfold upper. now rewrite map_string_length, sha256_hexdigest_length.
  - unfold upper. rewrite list_of_map_string.
    apply Forall_map.
    eapply Forall_impl; [| apply hex_of_bytes_lower].
    apply upper_char_hex.
Qed.

(** ** The cipher

    The inverse cipher undoes the cipher, round by round, and so does CBC
    decryption, block by block, whatever the key schedule is. *)
Module AesFacts.
Import Aes.
Local Open Scope list_scope.

Lemma xor8_cancel (a b : ascii) : xor8 (xor8 a b) b = a.
Proof.
  destruct a, b. simpl. f_equal; btauto.
Qed.

Lemma xor_word_cancel (v w : word) : xor_word (xor_word v w) w = v.
Proof.
  destruct v as [[[a b] c] d], w as [[[a' b'] c'] d']. simpl.
  now rewrite !xor8_cancel.
Qed.

Lemma add_round_key_cancel (s k : block) :
  add_round_key (add_round_key s k) k = s.
Proof.
  destruct s as [[[a b] c] d], k as [[[a' b'] c'] d']. simpl.
  now rewrite !xor_word_cancel.
Qed.

Lemma inv_sbox_sbox (a : ascii) : inv_sbox (sbox a) = a.
Proof.
  destruct a as [[] [] [] [] [] [] [] []]; vm_compute; reflexivity.
Qed.

Lemma inv_sub_bytes_sub_bytes (s : block) : inv_sub_bytes (sub_bytes s) = s.
Proof.
  destruct s as [[[[[[a0 a1] a2] a3] [[[b0 b1] b2] b3]]
                  [[[c0 c1] c2] c3]] [[[d0 d1] d2] d3]].
  unfold inv_sub_bytes, sub_bytes. simpl.
  now rewrite !inv_sbox_sbox.
Qed.

Lemma inv_shift_rows_shift_rows (s : block) :
  inv_shift_rows (shift_rows s) = s.
Proof.
  destruct s as [[[[[[a0 a1] a2] a3] [[[b0 b1] b2] b3]]
                  [[[c0 c1] c2] c3]] [[[d0 d1] d2] d3]].
  reflexivity.
Qed.

Lemma inv_mix_column_mix_column (w : word) :
  inv_mix_column (mix_column w) = w.
Proof.
  destruct w as [[[a b] c] d]. destruct a, b, c, d.
  unfold inv_mix_column, mix_column, m2, m3, m9, m11, m13, m14, xtime, xor8.
  f_equal; [f_equal; [f_equal |] |]; f_equal; btauto.
Qed.

Lemma inv_mix_columns_mix_columns (s : block) :
  inv_mix_columns (mix_columns s) = s.
Proof.
  destruct s as [[[a b] c] d]. unfold inv_mix_columns, mix_columns. simpl.
  now rewrite !inv_mix_column_mix_column.
Qed.

Lemma inv_rounds_rounds (ks : list block) :
  forall s, inv_rounds ks (rounds ks s) = s.
Proof.
  induction ks as [| k ks IH]; intros s; [reflexivity |].
  destruct ks as [| k' ks].
  - simpl. now rewrite add_round_key_cancel, inv_shift_rows_shift_rows,
      inv_sub_bytes_sub_bytes.
  - change (rounds (k :: k' :: ks) s)
      with (rounds (k' :: ks)
              (add_round_key (mix_columns (shift_rows (sub_bytes s))) k)).
    change (inv_rounds (k :: k' :: ks) ?x)
      with (inv_sub_bytes
              (inv_shift_rows
                 (inv_mix_columns (add_round_key (inv_rounds (k' :: ks) x) k)))).
    now rewrite IH, add_round_key_cancel, inv_mix_columns_mix_columns,
      inv_shift_rows_shift_rows, inv_sub_bytes_sub_bytes.
Qed.

Lemma decrypt_block_encrypt_block (ks : list block) (s : block) :
  decrypt_block ks (encrypt_block ks s) = s.
Proof.
  destruct ks as [| k0 ks]; [reflexivity |]. simpl.
  now rewrite inv_rounds_rounds, add_round_key_cancel.
Qed.

Lemma cbc_decrypt_encrypt (ks : list block) (ps : list block) :
  forall iv, cbc_decrypt ks iv (cbc_encrypt ks iv ps) = ps.
Proof.
  induction ps as [| p ps IH]; intros iv; [reflexivity |]. simpl.
  now rewrite decrypt_block_encrypt_block, add_round_key_cancel, IH.
Qed.

Lemma cbc_encrypt_length (ks : list block) (ps : list block) :
  forall iv, List.length (cbc_encrypt ks iv ps) = List.length ps.
Proof.
  induction ps as [| p ps IH]; intros iv; simpl; [reflexivity | now rewrite IH].
Qed.

Lemma bytes_of_block_length (s : block) : List.length (bytes_of_block s) = 16%nat.
Proof.
  destruct s as [[[[[[a0 a1] a2] a3] [[[b0 b1] b2] b3]]
                  [[[c0 c1] c2] c3]] [[[d0 d1] d2] d3]].
  reflexivity.
Qed.

Lemma bytes_of_blocks_length (bs : list block) :
  List.length (bytes_of_blocks bs) = (16 * List.length bs)%nat.
Proof.
  induction bs as [| b bs IH]; [reflexivity |].
  unfold bytes_of_blocks in *. cbn [flat_map].
  rewrite List.length_app, bytes_of_block_length, IH. cbn [List.length]. lia.
Qed.

Lemma block_of_bytes (s : block) (rest : list ascii) :
  block_of (bytes_of_block s ++ rest) = s.
Proof.
  destruct s as [[[[[[a0 a1] a2] a3] [[[b0 b1] b2] b3]]
                  [[[c0 c1] c2] c3]] [[[d0 d1] d2] d3]].
  reflexivity.
Qed.

Lemma skipn_bytes_of_block (s : block) (rest : list ascii) :
  skipn 16 (bytes_of_block s ++ rest) = rest.
Proof.
  destruct s as [[[[[[a0 a1] a2] a3] [[[b0 b1] b2] b3]]
                  [[[c0 c1] c2] c3]] [[[d0 d1] d2] d3]].
  reflexivity.
Qed.

Lemma blocks_of_bytes (bs : list block) :
  blocks_of (List.length bs) (bytes_of_blocks bs) = bs.
Proof.
  induction bs as [| b bs IH]; [reflexivity |].
  unfold bytes_of_blocks in *. cbn [flat_map List.length blocks_of].
  now rewrite block_of_bytes, skipn_bytes_of_block, IH.
Qed.

Lemma bytes_of_block_of (l : list ascii) :
  (16 <= List.length l)%nat ->
  bytes_of_block (block_of l) ++ skipn 16 l = l.
Proof.
  intros H.
  do 16 (destruct l as [| ? l]; [simpl in H; lia |]).
  reflexivity.
Qed.

Lemma bytes_of_blocks_of (n : nat) :
  forall l, List.length l = (16 * n)%nat ->
            bytes_of_blocks (blocks_of n l) = l.
Proof.
  induction n as [| n IH]; intros l Hl.
  - destruct l; [reflexivity | simpl in Hl; lia].
  - unfold bytes_of_blocks in *. cbn [blocks_of flat_map].
    rewrite IH.
    + apply bytes_of_block_of. lia.
    + rewrite List.length_skipn. lia.
Qed.

Lemma pad_count (l : list ascii) :
  let n := (16 - List.length l mod 16)%nat in
  (1 <= n <= 16)%nat /\
  (List.length l + n = 16 * (List.length l / 16 + 1))%nat.
Proof.
  intros n. subst n.
  pose proof (Nat.mod_upper_bound (List.length l) 16) as Hlt.
  pose proof (Nat.div_mod_eq (List.length l) 16) as Hdiv.
  lia.
Qed.

Lemma pad_length (l : list ascii) :
  List.length (pad l) = (16 * (List.length l / 16 + 1))%nat.
Proof.
  unfold pad. rewrite List.length_app, List.repeat_length.
  apply pad_count.
Qed.

Lemma forallb_repeat (c : ascii) (n : nat) :
  forallb (Ascii.eqb c) (repeat c n) = true.
Proof.
  induction n as [| n IH]; simpl; [reflexivity |].
  now rewrite Ascii.eqb_refl, IH.
Qed.

Lemma rev_repeat_head (c : ascii) (n : nat) (l : list ascii) :
  rev (l ++ repeat c (S n)) = c :: rev (l ++ repeat c n).
Proof.
  rewrite !rev_app_distr, !rev_repeat. reflexivity.
Qed.

Lemma unpad_pad (l : list ascii) : unpad (pad l) = Some l.
Proof.
  unfold unpad. rewrite pad_length. unfold pad.
  destruct (pad_count l) as [[H1 H16] Hlen].
  set (n := (16 - List.length l mod 16)%nat) in *.
  destruct n as [| n]; [lia |].
  rewrite rev_repeat_head.
  rewrite nat_ascii_embedding by lia.
  rewrite <- Hlen.
  replace (List.length l + S n - S n)%nat with (List.length l) by lia.
  rewrite skipn_app, Nat.sub_diag, skipn_all. cbn [skipn app].
  rewrite firstn_app, Nat.sub_diag, firstn_all. cbn [firstn].
  rewrite app_nil_r.
  rewrite (forallb_repeat (ascii_of_nat (S n)) (S n)).
  destruct (Nat.leb_spec 1 (S n)); [| lia].
  destruct (Nat.leb_spec (S n) 16); [| lia].
  destruct (Nat.leb_spec (S n) (List.length l + S n)); [| lia].
  reflexivity.
Qed.

Lemma decrypt_encrypt (key iv text : list ascii) :
  decrypt key iv (encrypt key iv text) = Some text.
Proof.
  unfold decrypt, encrypt.
  set (ks := round_keys (block_of key)).
  set (n := (List.length text / 16 + 1)%nat).
  assert (Hpad : List.length (pad text) = (16 * n)%nat) by apply pad_length.
  assert (Hdiv : (List.length (pad text) / 16 = n)%nat).
  { rewrite Hpad, Nat.mul_comm. apply Nat.div_mul. discriminate. }
  rewrite Hdiv.
  set (cs := cbc_encrypt ks (block_of iv) (blocks_of n (pad text))).
  assert (Hcs : List.length cs = n).
  { subst cs. rewrite cbc_encrypt_length.
    clear. generalize (pad text). induction n as [| n IH]; intros l;
      simpl; [reflexivity | now rewrite IH]. }
  rewrite bytes_of_blocks_length, Hcs.
  replace ((16 * n) mod 16)%nat with 0%nat
    by (rewrite Nat.mul_comm, Nat.Div0.mod_mul; reflexivity).
  replace ((16 * n) / 16)%nat with n
    by (rewrite Nat.mul_comm, Nat.div_mul; [reflexivity | discriminate]).
  destruct (Nat.eqb_spec (16 * n) 0); [subst n; lia |]. cbn [andb negb Nat.eqb].
  rewrite <- Hcs at 1. rewrite blocks_of_bytes.
  subst cs. rewrite cbc_decrypt_encrypt.
  rewrite (bytes_of_blocks_of n _ Hpad).
  apply unpad_pad.
Qed.
End AesFacts.

(** ** Base64 *)
Module Base64Facts.
Import Base64.
Local Open Scope list_scope.

Lemma sextet_of_char_of (s : sextet) : sextet_of (char_of s) = Some s.
Proof.
  destruct s as [[[[[[] []] []] []] []] []]; vm_compute; reflexivity.
Qed.

Lemma char_of_not_equals (s : sextet) : Ascii.eqb (char_of s) equals = false.
Proof.
  destruct s as [[[[[[] []] []] []] []] []]; vm_compute; reflexivity.
Qed.

Lemma decode_encode_bounded (n : nat) :
  forall l, (List.length l <= n)%nat -> decode (encode l) = Some l.
Proof.
  induction n as [| n IH]; intros l Hl.
  { destruct l; [reflexivity | simpl in Hl; lia]. }
  destruct l as [| a [| b [| c rest]]]; [reflexivity | | |].
  - destruct a. cbn [encode encode1 decode].
    rewrite !sextet_of_char_of. reflexivity.
  - destruct a, b. cbn [encode encode2 decode].
    rewrite !sextet_of_char_of, char_of_not_equals. reflexivity.
  - destruct a, b, c. cbn [encode encode3 decode app].
    rewrite !sextet_of_char_of, char_of_not_equals.
    rewrite IH by (simpl in Hl; lia). reflexivity.
Qed.

Lemma decode_encode (l : list ascii) : decode (encode l) = Some l.
Proof. now apply (decode_encode_bounded (List.length l)). Qed.

End Base64Facts.

(** What [crypto_utils] and [base64] do together: a text encrypted under a
    key decodes and decrypts to itself under that key. *)
Lemma crypto_utils_round_trip (plain : string) (key : json) (iv c : string) :
  CryptoUtils.encryptAES128CBCBufferToBase64String plain key iv = Gives c ->
  exists buf,
    CryptoUtils.b64decode (JStr c) = Gives buf /\
    CryptoUtils.decryptAES128CBCBufferToString buf key iv = Gives plain.
Proof.
  unfold CryptoUtils.encryptAES128CBCBufferToBase64String,
    CryptoUtils.decryptAES128CBCBufferToString, CryptoUtils.b64decode,
    CryptoUtils.b64encode, CryptoUtils.text, CryptoUtils.bytes.
  destruct key as [| | | k | |]; try discriminate.
  destruct (CryptoUtils.sizes_ok k iv); [| discriminate].
  intros [= <-].
  rewrite list_ascii_of_string_of_list_ascii, Base64Facts.decode_encode.
  eexists. split; [reflexivity |].
  rewrite !list_ascii_of_string_of_list_ascii, AesFacts.decrypt_encrypt.
  now rewrite string_of_list_ascii_of_string.
Qed.

(** ** The key manager's wrappers *)

Section Wrappers.
Context {X : Externals}.

Lemma called_not_mazda {A} (c : libcall A) (msg : string) :
  called c <> Err (MazdaException msg).
Proof. destruct c; discriminate. Qed.

Lemma encrypt_missing_key_iff (self : Connection) (payload : option string) :
  __encrypt_payload_using_key self payload
    = Err (MazdaException "Missing encryption key")
  <-> none_or_empty (enc_key self) = true.
Proof.
  unfold __encrypt_payload_using_key.
  destruct (none_or_empty (enc_key self)).
  - tauto.
  - split; [| discriminate].
    destruct (arg_none_or_empty payload); [discriminate |].
    intros H. now apply called_not_mazda in H.
Qed.

Lemma encrypt_errors (self : Connection) (payload : option string) (e : exn) :
  __encrypt_payload_using_key self payload = Err e ->
  e = MazdaException "Missing encryption key" \/ exists what, e = ExternalError what.
Proof.
  unfold __encrypt_payload_using_key.
  destruct (none_or_empty (enc_key self)); [intros [= <-]; now left |].
  destruct (arg_none_or_empty payload); [discriminate |].
  destruct (encryptAES128CBCBufferToBase64String _ _ _); simpl;
    [discriminate | intros [= <-]; right; eauto].
Qed.

Lemma decrypt_missing_key_iff (self : Connection) (payload : json) :
  __decrypt_payload_using_key self payload
    = Err (MazdaException "Missing encryption key")
  <-> none_or_empty (enc_key self) = true.
Proof.
  unfold __decrypt_payload_using_key.
  destruct (none_or_empty (enc_key self)).
  - tauto.
  - split; [| discriminate].
    destruct (b64decode payload); simpl; [| discriminate].
    destruct (decryptAES128CBCBufferToString _ _ _); simpl; [| discriminate].
    intros H. now apply called_not_mazda in H.
Qed.

Lemma payload_sign_not_mazda (material : string) (key : json) (msg : string) :
  __get_payload_sign material key <> Err (MazdaException msg).
Proof.
  unfold __get_payload_sign, str_add. destruct key; discriminate.
Qed.

(** C10.  With a key in the session (a non-empty string [k]), encrypting
    the empty plaintext gives the empty string.  The statement holds for
    every cipher, a failing one included: the cipher is not consulted. *)
Theorem encrypt_empty_plaintext (self : Connection) (k : string) :
  k <> "" ->
  __encrypt_payload_using_key (set_enc_key self (JStr k)) (Some "") = Ok "".
Proof.
  intros Hk. unfold __encrypt_payload_using_key, none_or_empty. simpl.
  destruct (String.eqb_spec k ""); [contradiction | reflexivity].
Qed.

(** C8, as the code has it.  [encrypt] and [decrypt] raise the missing
    encryption key error exactly when the encryption key is [None] or
    empty.  Signing with no timestamp returns the empty string whatever the
    keys are; with a timestamp it raises the missing sign key error exactly
    when the signing key is [None] or empty, and the missing encryption key
    error exactly when the signing key is there and the encryption key is
    not. *)
Theorem missing_key_guards (self : Connection) (payload timestamp : option string)
    (ciphertext : json) :
  (__encrypt_payload_using_key self payload
     = Err (MazdaException "Missing encryption key")
   <-> none_or_empty (enc_key self) = true) /\
  (__decrypt_payload_using_key self ciphertext
     = Err (MazdaException "Missing encryption key")
   <-> none_or_empty (enc_key self) = true) /\
  (if arg_none_or_empty timestamp
   then __get_sign_from_payload_and_timestamp self payload timestamp = Ok ""
   else
     (__get_sign_from_payload_and_timestamp self payload timestamp
        = Err (MazdaException "Missing sign key")
      <-> none_or_empty (sign_key self) = true) /\
     (__get_sign_from_payload_and_timestamp self payload timestamp
        = Err (MazdaException "Missing encryption key")
      <-> none_or_empty (sign_key self) = false /\
          none_or_empty (enc_key self) = true)).
Proof.
  split; [apply encrypt_missing_key_iff |].
  split; [apply decrypt_missing_key_iff |].
  unfold __get_sign_from_payload_and_timestamp.
  destruct (arg_none_or_empty timestamp); [reflexivity |].
  destruct (none_or_empty (sign_key self)).
  - split; split; intros H; try reflexivity; try discriminate.
    destruct H as [H _]; discriminate.
  - pose proof (encrypt_missing_key_iff self payload) as He.
    destruct (__encrypt_payload_using_key self payload) as [c | e] eqn:Henc.
    + split; split; try discriminate.
      * intros H. now apply payload_sign_not_mazda in H.
      * intros H. now apply payload_sign_not_mazda in H.
      * intros [_ H]. apply He in H. discriminate.
    + split; split; try discriminate.
      * intros H. injection H as ->.
        destruct (encrypt_errors _ _ _ Henc) as [H | [w H]]; discriminate.
      * intros H. split; [reflexivity |]. apply He. exact H.
      * intros [_ H]. apply He in H. exact H.
Qed.

(** C4.  With the signing key [k] in the session and [c] the encrypted
    payload, the sign header of an ordinary request with the non-empty
    timestamp [t] is the SHA-256 digest of [c + t + t[6:] + t[3:] + k] in
    uppercase hexadecimal, 64 characters long.  It is a function of the
    session, the payload and the timestamp. *)
Theorem sign_from_payload_and_timestamp (self : Connection)
    (payload t k c : string) :
  t <> "" ->
  sign_key self = JStr k ->
  k <> "" ->
  __encrypt_payload_using_key self (Some payload) = Ok c ->
  let digest :=
    upper (Hashlib.sha256_hexdigest
             ((c ++ t ++ slice_from 6 t ++ slice_from 3 t) ++ k)) in
  __get_sign_from_payload_and_timestamp self (Some payload) (Some t)
    = Ok digest /\
  String.length digest = 64%nat /\
  Forall upper_hex (list_ascii_of_string digest).
Proof.
  intros Ht Hkey Hk Henc digest.
  split; [| apply upper_sha256_shape].
  unfold __get_sign_from_payload_and_timestamp. simpl.
  destruct (String.eqb_spec t ""); [contradiction |].
  rewrite Hkey. unfold none_or_empty. simpl.
  destruct (String.eqb_spec k ""); [contradiction |].
  rewrite <- Hkey, Henc, Hkey. reflexivity.
Qed.

End Wrappers.

(** ** The cipher round trip *)

Section RoundTrip.
Context {X : Externals}.

(** What [crypto_utils] and [base64] promise of each other: a text that
    was encrypted under [key] decodes and decrypts, under [key], to itself. *)
Hypothesis cipher_round_trip :
  forall (text : string) (key : json) (c : string),
    encryptAES128CBCBufferToBase64String text key IV = Gives c ->
    exists buf,
      b64decode (JStr c) = Gives buf /\
      decryptAES128CBCBufferToString buf key IV = Gives text.

(** C5, as the code has it.  Decrypting what a non-empty plaintext [p] was
    encrypted to, under the same session key, recovers [p] and hands it to
    [json.loads]: the result is the parsed value of [p] (or the parser's
    error), not the string [p]. *)
Theorem decrypt_encrypt_parses (self : Connection) (p c : string) :
  p <> "" ->
  __encrypt_payload_using_key self (Some p) = Ok c ->
  __decrypt_payload_using_key self (JStr c) = called (json_loads p).
Proof.
  intros Hp. unfold __encrypt_payload_using_key, __decrypt_payload_using_key.
  destruct (none_or_empty (enc_key self)); [discriminate |].
  simpl. destruct (String.eqb_spec p ""); [contradiction |].
  destruct (encryptAES128CBCBufferToBase64String p (enc_key self) IV)
    as [c' | w] eqn:Henc; simpl; [| discriminate].
  intros [= ->].
  destruct (cipher_round_trip _ _ _ Henc) as (buf & Hb & Hd).
  rewrite Hb. simpl. rewrite Hd. reflexivity.
Qed.

End RoundTrip.

(** ** Running the monad *)

Local Open Scope list_scope.

Lemma bind_eq {A B} (m : M A) (k : A -> M B) (s : state) :
  bind m k s =
  match m s with
  | (Return a, s') => k a s'
  | (Raise e, s') => (Raise e, s')
  | (OutOfFuel, s') => (OutOfFuel, s')
  end.
Proof. reflexivity. Qed.

Lemma bind_assoc {A B C} (m : M A) (k : A -> M B) (h : B -> M C) (s : state) :
  bind (bind m k) h s = bind m (fun a => bind (k a) h) s.
Proof. unfold bind. destruct (m s) as [[a | e |] s']; reflexivity. Qed.

Lemma scoped_eq {A} (wrap : list event -> event) (m : M A) (s : state) :
  scoped wrap m s =
  (fst (m (set_trace s [])),
   set_trace (snd (m (set_trace s [])))
             (trace s ++ [wrap (trace (snd (m (set_trace s []))))])).
Proof. unfold scoped. destruct (m (set_trace s [])); reflexivity. Qed.

Lemma scoped_trace {A} (wrap : list event -> event) (m : M A) (s : state) :
  exists inner, trace (snd (scoped wrap m s)) = trace s ++ [wrap inner].
Proof. rewrite scoped_eq. simpl. eauto. Qed.




Lemma receptive_Self : receptive Self.
Proof. intros s reply rest H. reflexivity. Qed.

Lemma receptive_Keys : receptive Keys.
Proof. intros s reply rest H. split; reflexivity. Qed.

Lemma receptive_Inbox : receptive Inbox.
Proof. intros s reply rest H. exists [reply]. exact H. Qed.

Section Frames.
Variable R : frame.

Lemma respects_bind {A B} (m : M A) (k : A -> M B) :
  respects R m -> (forall a, respects R (k a)) -> respects R (bind m k).
Proof.
  intros Hm Hk s. rewrite bind_eq. specialize (Hm s).
  destruct (m s) as [[a | e |] s']; simpl in *; [| exact Hm | exact Hm].
  eapply frame_trans; [exact Hm | apply Hk].
Qed.

Lemma respects_ret {A} (a : A) : respects R (ret a).
Proof. intros s. apply frame_refl. Qed.

Lemma respects_raise {A} (e : exn) : respects R (@raise A e).
Proof. intros s. apply frame_refl. Qed.

Lemma respects_out_of_fuel {A} : respects R (@out_of_fuel A).
Proof. intros s. apply frame_refl. Qed.

Lemma respects_lift {A} (r : result A) : respects R (lift r).
Proof. destruct r; intros s; apply frame_refl. Qed.

Lemma respects_get : respects R get_self.
Proof. intros s. apply frame_refl. Qed.

Lemma respects_debug (msg : string) : respects R (logger_debug msg).
Proof. intros s. apply frame_refl. Qed.

Lemma respects_time : respects R time_time.
Proof. intros s. apply frame_ticks. Qed.

Lemma respects_emit (e : event) : respects R (emit e).
Proof. intros s. simpl. apply frame_trace_r, frame_refl. Qed.

Lemma respects_request (r : http_request) :
  receptive R -> respects R (session_request r).
Proof.
  intros HR s. unfold session_request. rewrite bind_eq. simpl.
  destruct (inbox s) as [| [v | w] rest] eqn:Hin; simpl.
  - apply frame_trace_r, frame_refl.
  - eapply frame_trace_l with (t := trace s ++ [EvRequest r]).
    apply (HR (set_trace s (trace s ++ [EvRequest r])) _ _ Hin).
  - eapply frame_trace_l with (t := trace s ++ [EvRequest r]).
    apply (HR (set_trace s (trace s ++ [EvRequest r])) _ _ Hin).
Qed.

Lemma respects_scoped {A} (wrap : list event -> event) (m : M A) :
  respects R m -> respects R (scoped wrap m).
Proof.
  intros Hm s. rewrite scoped_eq. simpl.
  apply frame_trace_r. eapply frame_trace_l. apply Hm.
Qed.

Lemma respects_try {A} (m : M A) (h : exn -> option (M A)) :
  respects R m ->
  (forall e k, h e = Some k -> respects R k) ->
  respects R (try_except m h).
Proof.
  intros Hm Hh s. unfold try_except. specialize (Hm s).
  destruct (m s) as [[a | e |] s']; simpl in *; try exact Hm.
  destruct (h e) as [k |] eqn:He; [| exact Hm].
  eapply frame_trans; [exact Hm | now apply (Hh e)].
Qed.

End Frames.

Create HintDb frames.
#[local] Hint Resolve respects_ret respects_raise respects_out_of_fuel
  respects_lift respects_get respects_debug respects_time respects_emit
  respects_request receptive_Self receptive_Keys receptive_Inbox : frames.

Ltac frames :=
  repeat first
    [ solve [auto with frames]
    | apply respects_bind; [| intros ?]
    | apply respects_scoped
    | match goal with
      | |- respects _ (if ?b then _ else _) => destruct b
      | |- respects _ (match ?l with [] => _ | _ :: _ => _ end) => destruct l
      end ].

(** *** Computations that end *)


Lemma finishes_bind {A B} (m : M A) (k : A -> M B) :
  finishes m -> (forall a, finishes (k a)) -> finishes (bind m k).
Proof.
  intros Hm Hk s. rewrite bind_eq. specialize (Hm s).
  destruct (m s) as [[a | e |] s']; simpl in *;
    [apply Hk | discriminate | contradiction].
Qed.

Lemma finishes_ret {A} (a : A) : finishes (ret a).
Proof. intros s; discriminate. Qed.

Lemma finishes_raise {A} (e : exn) : finishes (@raise A e).
Proof. intros s; discriminate. Qed.

Lemma finishes_lift {A} (r : result A) : finishes (lift r).
Proof. destruct r; intros s; discriminate. Qed.

Lemma finishes_get : finishes get_self.
Proof. intros s; discriminate. Qed.

Lemma finishes_set_attr (setter : Connection -> json -> Connection)
    (v : json) : finishes (set_attr setter v).
Proof. intros s; discriminate. Qed.

Lemma finishes_debug (msg : string) : finishes (logger_debug msg).
Proof. intros s; discriminate. Qed.

Lemma finishes_time : finishes time_time.
Proof. intros s; discriminate. Qed.

Lemma finishes_emit (e : event) : finishes (emit e).
Proof. intros s; discriminate. Qed.

Lemma finishes_request (r : http_request) : finishes (session_request r).
Proof.
  intros s. unfold session_request. rewrite bind_eq. simpl.
  destruct (inbox s) as [| [v | w] rest]; discriminate.
Qed.

Lemma finishes_scoped {A} (wrap : list event -> event) (m : M A) :
  finishes m -> finishes (scoped wrap m).
Proof. intros Hm s. rewrite scoped_eq. apply Hm. Qed.

Create HintDb finishes.
#[local] Hint Resolve finishes_ret finishes_raise finishes_lift finishes_get
  finishes_set_attr finishes_debug finishes_time finishes_emit finishes_request
  : finishes.

Ltac finishes :=
  repeat first
    [ solve [auto with finishes]
    | apply finishes_bind; [| intros ?]
    | apply finishes_scoped
    | match goal with
      | |- finishes (if ?b then _ else _) => destruct b
      | |- finishes (match ?l with [] => _ | _ :: _ => _ end) => destruct l
      end ].

(** ** The session manager *)

Section Pipeline.
Context {X : Externals}.

Lemma respects_timestamp_ms (R : frame) : respects R __get_timestamp_str_ms.
Proof. unfold __get_timestamp_str_ms. frames. Qed.

Lemma respects_timestamp (R : frame) : respects R __get_timestamp_str.
Proof. unfold __get_timestamp_str. frames. Qed.

Hint Resolve respects_timestamp_ms respects_timestamp : frames.

Lemma respects_public_key (R : frame) (password : string) (publicKey : json) :
  respects R (__encrypt_payload_with_public_key password publicKey).
Proof. unfold __encrypt_payload_with_public_key. frames. Qed.

Hint Resolve respects_public_key : frames.

Lemma respects_login_exchange (R : frame) :
  receptive R -> respects R login_exchange.
Proof. intros HR. unfold login_exchange. frames. Qed.

Lemma respects_build_request (R : frame) (method uri : string)
    (query_dict body_dict : pydict) (needs_auth : bool) :
  respects R (build_request method uri query_dict body_dict needs_auth).
Proof. unfold build_request. frames. Qed.

Lemma respects_read_reply (R : frame) (uri : string) (response_json : json) :
  respects R (read_reply uri response_json).
Proof. unfold read_reply. frames. Qed.

Hint Resolve respects_build_request respects_read_reply : frames.

Lemma respects_send (R : frame) (method uri : string)
    (query_dict body_dict : pydict) (needs_keys needs_auth : bool) :
  receptive R ->
  respects R (__send_api_request method uri query_dict body_dict
                needs_keys needs_auth).
Proof. intros HR. unfold __send_api_request. frames. Qed.

Hint Resolve respects_login_exchange respects_send : frames.

Lemma respects_keys_token (v : json) :
  respects Keys (set_attr set_access_token v).
Proof. intros s. split; reflexivity. Qed.

Lemma respects_keys_expiration (v : json) :
  respects Keys (set_attr set_access_token_expiration_ts v).
Proof. intros s. split; reflexivity. Qed.

Hint Resolve respects_keys_token respects_keys_expiration : frames.

Lemma respects_keys_login : respects Keys login.
Proof. unfold login, login_classify. frames. Qed.

Lemma respects_inbox_set_attr (setter : Connection -> json -> Connection)
    (v : json) : respects Inbox (set_attr setter v).
Proof. intros s. now exists []. Qed.

Hint Resolve respects_inbox_set_attr : frames.

Lemma respects_inbox_login : respects Inbox login.
Proof. unfold login, login_classify. frames. Qed.

Lemma finishes_timestamp_ms : finishes __get_timestamp_str_ms.
Proof. unfold __get_timestamp_str_ms. finishes. Qed.

Lemma finishes_timestamp : finishes __get_timestamp_str.
Proof. unfold __get_timestamp_str. finishes. Qed.

Hint Resolve finishes_timestamp_ms finishes_timestamp : finishes.

Lemma finishes_public_key (password : string) (publicKey : json) :
  finishes (__encrypt_payload_with_public_key password publicKey).
Proof. unfold __encrypt_payload_with_public_key. finishes. Qed.

Hint Resolve finishes_public_key : finishes.

Lemma finishes_login : finishes login.
Proof. unfold login, login_exchange, login_classify. finishes. Qed.

Lemma finishes_send (method uri : string) (query_dict body_dict : pydict)
    (needs_keys needs_auth : bool) :
  finishes (__send_api_request method uri query_dict body_dict
              needs_keys needs_auth).
Proof. unfold __send_api_request, build_request, read_reply. finishes. Qed.

Lemma finishes_ensure_token : finishes __ensure_token_is_valid.
Proof.
  pose proof finishes_login.
  unfold __ensure_token_is_valid. finishes; assumption.
Qed.

Lemma respects_keys_ensure_token : respects Keys __ensure_token_is_valid.
Proof.
  pose proof respects_keys_login.
  unfold __ensure_token_is_valid. frames; assumption.
Qed.

Lemma respects_inbox_ensure_token : respects Inbox __ensure_token_is_valid.
Proof.
  pose proof respects_inbox_login.
  unfold __ensure_token_is_valid. frames; assumption.
Qed.

(** The session a status other than [OK] leaves behind *)
Lemma login_classify_refused (resp status : json) (s : state) :
  getitem resp "status" = Ok status ->
  eq_str status "OK" = false ->
  login_classify resp s =
    (Raise (if eq_str status "INVALID_CREDENTIAL"
            then MazdaAuthenticationException "Invalid email or password"
            else if eq_str status "USER_LOCKED"
            then MazdaAccountLockedException "Account has been locked"
            else MazdaException "Login failed"), s).
Proof.
  intros Hst Hok. unfold login_classify. rewrite bind_eq, Hst. simpl.
  destruct (eq_str status "INVALID_CREDENTIAL"); [reflexivity |].
  destruct (eq_str status "USER_LOCKED"); [reflexivity |].
  rewrite Hok. reflexivity.
Qed.

Lemma login_trace (s : state) :
  exists inner, trace (snd (login s)) = trace s ++ [EvLogin inner].
Proof. apply scoped_trace. Qed.

(** C6.  When the login endpoint answers with a status other than [OK],
    [login] raises and the session is what it was: no token and no
    expiration is written.  For [INVALID_CREDENTIAL] what it raises is the
    authentication failure. *)
Theorem login_refused_keeps_session (s s1 : state) (resp status : json) :
  login_exchange (set_trace s []) = (Return resp, s1) ->
  getitem resp "status" = Ok status ->
  eq_str status "OK" = false ->
  (exists e, fst (login s) = Raise e) /\
  (eq_str status "INVALID_CREDENTIAL" = true ->
   fst (login s)
     = Raise (MazdaAuthenticationException "Invalid email or password")) /\
  self (snd (login s)) = self s /\
  access_token (self (snd (login s))) = access_token (self s) /\
  access_token_expiration_ts (self (snd (login s)))
    = access_token_expiration_ts (self s).
Proof.
  intros Hex Hst Hok.
  assert (Hself : self s1 = self s).
  { pose proof (respects_login_exchange Self receptive_Self
                  (set_trace s [])) as H.
    rewrite Hex in H. exact H. }
  unfold login. rewrite scoped_eq, bind_eq, Hex.
  rewrite (login_classify_refused _ _ _ Hst Hok). simpl.
  rewrite Hself.
  repeat split; eauto.
  intros ->. reflexivity.
Qed.

(** C9.  [__ensure_token_is_valid] logs in exactly when the token is
    [None], or the expiration is [None], or the expiration is not after the
    current time; otherwise it returns with the session and the trace
    untouched, having only read the clock. *)
Theorem ensure_token_valid_logs_in_iff (s : state) :
  timestamp_or_none (access_token_expiration_ts (self s)) ->
  if token_invalid (self s) (clock s (ticks s))
  then
    (exists s0, self s0 = self s /\ trace s0 = trace s /\
                __ensure_token_is_valid s = login s0) /\
    (exists inner,
       trace (snd (__ensure_token_is_valid s)) = trace s ++ [EvLogin inner])
  else
    __ensure_token_is_valid s = (Return tt, set_ticks s (S (ticks s))).
Proof.
  intros Hts. unfold token_invalid, __ensure_token_is_valid.
  rewrite bind_eq. simpl.
  destruct (is_none (access_token (self s))) eqn:Htok; simpl.
  { split; [exists s; auto | apply login_trace]. }
  destruct (access_token_expiration_ts (self s)) eqn:Hexp;
    simpl in *; try contradiction.
  { split; [exists s; auto | apply login_trace]. }
  rewrite !bind_eq. simpl.
  destruct (Qle_bool q (clock s (ticks s))).
  - split.
    + exists (set_ticks s (S (ticks s))). auto.
    + destruct (login_trace (set_ticks s (S (ticks s)))) as [inner H].
      exists inner. exact H.
  - reflexivity.
Qed.


(** ** The request pipeline *)


Lemma appends_bind (P : event -> Prop) {A B} (m : M A) (k : A -> M B) :
  appends P m -> (forall a, appends P (k a)) -> appends P (bind m k).
Proof.
  intros Hm Hk s. rewrite bind_eq. destruct (Hm s) as (l1 & H1 & F1).
  destruct (m s) as [[a | e |] s']; simpl in *; eauto.
  destruct (Hk a s') as (l2 & H2 & F2).
  exists (l1 ++ l2). rewrite H2, H1, app_assoc.
  split; [reflexivity | now apply Forall_app].
Qed.

Lemma appends_nothing (P : event -> Prop) {A} (m : M A) :
  (forall s, trace (snd (m s)) = trace s) -> appends P m.
Proof. intros H s. exists []. rewrite H, app_nil_r. auto. Qed.

Lemma appends_emit (P : event -> Prop) (e : event) :
  P e -> appends P (emit e).
Proof. intros He s. exists [e]. simpl. auto. Qed.

Lemma appends_scoped (P : event -> Prop) {A} (wrap : list event -> event)
    (m : M A) :
  (forall inner, P (wrap inner)) -> appends P (scoped wrap m).
Proof.
  intros Hw s. destruct (scoped_trace wrap m s) as [inner H].
  exists [wrap inner]. auto.
Qed.

Lemma appends_ret (P : event -> Prop) {A} (a : A) : appends P (ret a).
Proof. now apply appends_nothing. Qed.

Lemma appends_raise (P : event -> Prop) {A} (e : exn) : appends P (@raise A e).
Proof. now apply appends_nothing. Qed.

Lemma appends_lift (P : event -> Prop) {A} (r : result A) : appends P (lift r).
Proof. apply appends_nothing. now destruct r. Qed.

Lemma appends_get (P : event -> Prop) : appends P get_self.
Proof. now apply appends_nothing. Qed.

Lemma appends_time (P : event -> Prop) : appends P time_time.
Proof. now apply appends_nothing. Qed.

Lemma appends_request (P : event -> Prop) (r : http_request) :
  P (EvRequest r) -> appends P (session_request r).
Proof.
  intros HP s. exists [EvRequest r]. split; [| auto].
  unfold session_request. rewrite bind_eq. simpl.
  destruct (inbox s) as [| [v | w] rest]; reflexivity.
Qed.

Lemma appends_try (P : event -> Prop) {A} (m : M A) (h : exn -> option (M A)) :
  appends P m ->
  (forall e k, h e = Some k -> appends P k) ->
  appends P (try_except m h).
Proof.
  intros Hm Hh s. unfold try_except. destruct (Hm s) as (l1 & H1 & F1).
  destruct (m s) as [[a | e |] s']; simpl in *; eauto.
  destruct (h e) as [k |] eqn:He; simpl; eauto.
  destruct (Hh e k He s') as (l2 & H2 & F2).
  exists (l1 ++ l2). rewrite H2, H1, app_assoc.
  split; [reflexivity | now apply Forall_app].
Qed.

Create HintDb traces.
#[local] Hint Resolve appends_ret appends_raise appends_lift appends_get
  appends_time : traces.

Ltac traces :=
  repeat first
    [ solve [auto with traces]
    | apply appends_request; exact I
    | apply appends_bind; [| intros ?]
    | apply appends_scoped; intros ?; exact I
    | apply appends_emit; exact I
    | match goal with
      | |- appends _ (if ?b then _ else _) => destruct b
      end ].


Lemma raises_only_bind (P : exn -> Prop) {A B} (m : M A) (k : A -> M B) :
  raises_only P m -> (forall a, raises_only P (k a)) ->
  raises_only P (bind m k).
Proof.
  intros Hm Hk s e. rewrite bind_eq. specialize (Hm s).
  destruct (m s) as [[a | e' |] s']; simpl in *;
    [apply Hk | intros [= <-]; now apply Hm | discriminate].
Qed.

Lemma raises_only_ret (P : exn -> Prop) {A} (a : A) : raises_only P (ret a).
Proof. intros s e; discriminate. Qed.

Lemma raises_only_get (P : exn -> Prop) : raises_only P get_self.
Proof. intros s e; discriminate. Qed.

Lemma raises_only_time (P : exn -> Prop) : raises_only P time_time.
Proof. intros s e; discriminate. Qed.

Lemma raises_only_lift (P : exn -> Prop) {A} (r : result A) :
  (forall e, r = Err e -> P e) -> raises_only P (lift r).
Proof.
  intros Hr s e. destruct r; simpl; [discriminate | intros [= <-]; auto].
Qed.

Create HintDb raisings.
#[local] Hint Resolve raises_only_ret raises_only_get raises_only_time
  : raisings.

Ltac raisings :=
  repeat first
    [ solve [auto with raisings]
    | apply raises_only_bind; [| intros ?]
    | match goal with
      | |- raises_only _ (if ?b then _ else _) => destruct b
      | |- raises_only _ (match ?l with [] => _ | _ :: _ => _ end) =>
          destruct l
      end ].

Lemma recovery_recoverable (fuel : nat) (method uri : string)
    (query_dict body_dict : pydict) (needs_keys needs_auth : bool) (n : Z)
    (e : exn) :
  recoverable e = false ->
  recovery fuel method uri query_dict body_dict needs_keys needs_auth n e
    = None.
Proof. destruct e; simpl; congruence. Qed.

Lemma getitem_not_recoverable (v : json) (key : string) (e : exn) :
  getitem v key = Err e -> recoverable e = false.
Proof.
  destruct v; simpl; try (intros [= <-]; reflexivity).
  induction fields as [| [k x] rest IH]; simpl.
  - intros [= <-]; reflexivity.
  - destruct (String.eqb k key); [discriminate | exact IH].
Qed.

Lemma encrypt_not_recoverable (self : Connection) (payload : option string)
    (e : exn) :
  __encrypt_payload_using_key self payload = Err e -> recoverable e = false.
Proof.
  intros H. destruct (encrypt_errors _ _ _ H) as [-> | [w ->]]; reflexivity.
Qed.

Lemma sign_timestamp_ok (timestamp : option string) :
  exists sign, __get_sign_from_timestamp timestamp = Ok sign.
Proof.
  unfold __get_sign_from_timestamp.
  destruct (arg_none_or_empty timestamp); simpl; eauto.
Qed.

Lemma sign_not_recoverable (self : Connection) (payload timestamp : option string)
    (e : exn) :
  __get_sign_from_payload_and_timestamp self payload timestamp = Err e ->
  recoverable e = false.
Proof.
  unfold __get_sign_from_payload_and_timestamp.
  destruct (arg_none_or_empty timestamp); [discriminate |].
  destruct (none_or_empty (sign_key self)); [intros [= <-]; reflexivity |].
  destruct (__encrypt_payload_using_key self payload) eqn:He.
  - unfold __get_payload_sign, str_add.
    destruct (sign_key self); try discriminate; intros [= <-]; reflexivity.
  - intros [= <-]. eapply encrypt_not_recoverable; eauto.
Qed.

Lemma decrypt_app_not_recoverable (payload : json) (e : exn) :
  __decrypt_payload_using_app_code payload = Err e -> recoverable e = false.
Proof.
  unfold __decrypt_payload_using_app_code.
  destruct (b64decode payload); simpl; [| intros [= <-]; reflexivity].
  destruct (decryptAES128CBCBufferToString _ _ _); simpl;
    [| intros [= <-]; reflexivity].
  destruct (json_loads _); simpl; [discriminate | intros [= <-]; reflexivity].
Qed.

Lemma decrypt_key_not_recoverable (self : Connection) (payload : json)
    (e : exn) :
  __decrypt_payload_using_key self payload = Err e -> recoverable e = false.
Proof.
  unfold __decrypt_payload_using_key.
  destruct (none_or_empty (enc_key self)); [intros [= <-]; reflexivity |].
  destruct (b64decode payload); simpl; [| intros [= <-]; reflexivity].
  destruct (decryptAES128CBCBufferToString _ _ _); simpl;
    [| intros [= <-]; reflexivity].
  destruct (json_loads _); simpl; [discriminate | intros [= <-]; reflexivity].
Qed.

Lemma build_request_not_recoverable (method uri : string)
    (query_dict body_dict : pydict) (needs_auth : bool) :
  raises_only (fun e => recoverable e = false)
    (build_request method uri query_dict body_dict needs_auth).
Proof.
  unfold build_request, __get_timestamp_str_ms. raisings;
    apply raises_only_lift; intros e He;
    eauto using encrypt_not_recoverable, sign_not_recoverable.
  destruct (sign_timestamp_ok (Some a)) as [sg Hs]. congruence.
Qed.

Lemma session_request_outcome (r : http_request) (s : state) :
  match fst (session_request r s) with
  | Return v => inbox s = Gives v :: inbox (snd (session_request r s))
  | Raise e => recoverable e = false
  | OutOfFuel => False
  end.
Proof.
  unfold session_request. rewrite bind_eq. simpl.
  destruct (inbox s) as [| [v | w] rest]; reflexivity.
Qed.

(** The reply that makes [__send_api_request] raise what the pipeline
    recovers from: a state other than [S] and the matching error code. *)
Lemma read_reply_recoverable (uri : string) (resp : json) (s : state) (e : exn) :
  fst (read_reply uri resp s) = Raise e ->
  recoverable e = true ->
  exists state code,
    getitem resp "state" = Ok state /\ eq_str state "S" = false /\
    getitem resp "errorCode" = Ok code /\
    (e = MazdaAPIEncryptionException "Server rejected encrypted request" /\
     eq_int code 600001 = true \/
     e = MazdaTokenExpiredException "Token expired" /\
     eq_int code 600001 = false /\ eq_int code 600002 = true).
Proof.
  unfold read_reply. rewrite bind_eq.
  destruct (getitem resp "state") as [st | e0] eqn:Hst; simpl.
  2:{ intros [= <-] Hr. apply getitem_not_recoverable in Hst. congruence. }
  destruct (eq_str st "S") eqn:HS.
  - rewrite bind_eq.
    destruct (getitem resp "payload") as [pl | e0] eqn:Hpl; simpl.
    2:{ intros [= <-] Hr. apply getitem_not_recoverable in Hpl. congruence. }
    destruct (contains "checkVersion" uri).
    + destruct (__decrypt_payload_using_app_code pl) eqn:Hd; simpl;
        [discriminate |].
      intros [= <-] Hr. apply decrypt_app_not_recoverable in Hd. congruence.
    + rewrite bind_eq. simpl.
      destruct (__decrypt_payload_using_key (self s) pl) eqn:Hd; simpl;
        [discriminate |].
      intros [= <-] Hr. apply decrypt_key_not_recoverable in Hd. congruence.
  - rewrite bind_eq.
    destruct (getitem resp "errorCode") as [code | e0] eqn:Hc; simpl.
    2:{ intros [= <-] Hr. apply getitem_not_recoverable in Hc. congruence. }
    destruct (eq_int code 600001) eqn:H1; simpl.
    + intros [= <-] _. exists st, code.
      repeat split; auto.
    + destruct (eq_int code 600002) eqn:H2; simpl.
      * intros [= <-] _. exists st, code.
        repeat split; auto.
      * intros [= <-]; discriminate.
Qed.

Lemma read_reply_returns (uri : string) (resp v : json) (s : state) :
  fst (read_reply uri resp s) = Return v ->
  contains "checkVersion" uri = true ->
  exists payload,
    getitem resp "payload" = Ok payload /\
    __decrypt_payload_using_app_code payload = Ok v.
Proof.
  unfold read_reply. rewrite bind_eq. intros H Huri. revert H.
  destruct (getitem resp "state") as [st | e0]; simpl; [| discriminate].
  destruct (eq_str st "S").
  - rewrite bind_eq.
    destruct (getitem resp "payload") as [pl | e0]; simpl; [| discriminate].
    rewrite Huri.
    destruct (__decrypt_payload_using_app_code pl) eqn:Hd; simpl;
      [| discriminate].
    intros [= <-]. eauto.
  - rewrite bind_eq.
    destruct (getitem resp "errorCode") as [code | e0]; simpl;
      [| discriminate].
    destruct (eq_int code 600001); [discriminate |].
    destruct (eq_int code 600002); discriminate.
Qed.

Lemma retry_exceeded (fuel : nat) (method uri : string)
    (query_dict body_dict : pydict) (needs_keys needs_auth : bool)
    (n : Z) (s : state) :
  n > MAX_RETRIES ->
  __api_request_retry (S fuel) method uri query_dict body_dict
    needs_keys needs_auth n s
  = (Raise retries_exceeded, set_trace s (trace s ++ [EvAttempt uri n])).
Proof.
  intros Hn. simpl. rewrite bind_eq. simpl.
  destruct (Z.gtb_spec n MAX_RETRIES); [reflexivity | lia].
Qed.

Lemma retry_within (fuel : nat) (method uri : string)
    (query_dict body_dict : pydict) (needs_keys needs_auth : bool)
    (n : Z) (s : state) :
  n <= MAX_RETRIES ->
  __api_request_retry (S fuel) method uri query_dict body_dict
    needs_keys needs_auth n s
  = (before_sending fuel uri needs_keys needs_auth n ;;
     message <- lift (retry_message n) ;;
     try_except
       (__send_api_request method uri query_dict body_dict
          needs_keys needs_auth)
       (recovery fuel method uri query_dict body_dict
          needs_keys needs_auth n)) s.
Proof.
  intros Hn. unfold before_sending.
  rewrite bind_assoc. cbn [__api_request_retry].
  rewrite !(bind_eq (emit _)). cbn [emit].
  destruct (Z.gtb_spec n MAX_RETRIES); [lia |].
  rewrite bind_assoc. reflexivity.
Qed.

Lemma finishes_build_request (method uri : string)
    (query_dict body_dict : pydict) (needs_auth : bool) :
  finishes (build_request method uri query_dict body_dict needs_auth).
Proof. unfold build_request, __get_timestamp_str_ms. finishes. Qed.

Lemma finishes_read_reply (uri : string) (resp : json) :
  finishes (read_reply uri resp).
Proof. unfold read_reply. finishes. Qed.

(** What [__send_api_request] has done when it returns, and when it
    raises what the pipeline recovers from: it has received one reply. *)
Lemma send_outcome (method uri : string) (query_dict body_dict : pydict)
    (needs_keys needs_auth : bool) (s : state) :
  let run := __send_api_request method uri query_dict body_dict
               needs_keys needs_auth s in
  match fst run with
  | Return v =>
      exists resp,
        inbox s = Gives resp :: inbox (snd run) /\
        (contains "checkVersion" uri = true ->
         exists payload,
           getitem resp "payload" = Ok payload /\
           __decrypt_payload_using_app_code payload = Ok v)
  | Raise e =>
      recoverable e = true ->
      exists resp state code,
        inbox s = Gives resp :: inbox (snd run) /\
        getitem resp "state" = Ok state /\ eq_str state "S" = false /\
        getitem resp "errorCode" = Ok code /\
        (e = MazdaAPIEncryptionException "Server rejected encrypted request" /\
         eq_int code 600001 = true \/
         e = MazdaTokenExpiredException "Token expired" /\
         eq_int code 600001 = false /\ eq_int code 600002 = true)
  | OutOfFuel => False
  end.
Proof.
  unfold __send_api_request. cbv zeta. rewrite bind_eq.
  pose proof (respects_build_request Quiet method uri query_dict body_dict
                needs_auth s) as [Hq _].
  pose proof (build_request_not_recoverable method uri query_dict body_dict
                needs_auth s) as Hr.
  pose proof (finishes_build_request method uri query_dict body_dict
                needs_auth s) as Hf.
  destruct (build_request method uri query_dict body_dict needs_auth s)
    as [[r | e |] s1]; simpl in *.
  2:{ intros He. rewrite (Hr e eq_refl) in He. discriminate. }
  2:{ now apply Hf. }
  rewrite bind_eq.
  pose proof (session_request_outcome r s1) as Hs.
  destruct (session_request r s1) as [[resp | e |] s2]; simpl in *.
  2:{ intros He. congruence. }
  2:{ exact Hs. }
  pose proof (respects_read_reply Quiet uri resp s2) as [Hq2 _].
  pose proof (read_reply_recoverable uri resp s2) as Hrec.
  pose proof (fun v => read_reply_returns uri resp v s2) as Hret.
  pose proof (finishes_read_reply uri resp s2) as Hf2.
  destruct (read_reply uri resp s2) as [[v | e |] s3]; simpl in *.
  - exists resp. rewrite Hq2, <- Hq. split; [exact Hs |].
    intros Huri. now apply Hret.
  - intros He. destruct (Hrec e eq_refl He) as (st & code & H1 & H2 & H3 & H4).
    exists resp, st, code. rewrite Hq2, <- Hq. auto.
  - now apply Hf2.
Qed.

(** *** The replies are consumed in order *)

Lemma respects_inbox_retrieve_with
    (api : string -> string -> pydict -> pydict -> bool -> bool -> M json) :
  (forall m u q b nk na, respects Inbox (api m u q b nk na)) ->
  respects Inbox (retrieve_keys_with api).
Proof. intros H. unfold retrieve_keys_with. frames. Qed.

Lemma respects_inbox_ensure_with (retrieve : M unit) :
  respects Inbox retrieve -> respects Inbox (ensure_keys_present_with retrieve).
Proof. intros H. unfold ensure_keys_present_with. frames. Qed.

Lemma respects_inbox_retry (fuel : nat) :
  forall (method uri : string) (query_dict body_dict : pydict)
         (needs_keys needs_auth : bool) (n : Z),
    respects Inbox (__api_request_retry fuel method uri query_dict body_dict
                      needs_keys needs_auth n).
Proof.
  induction fuel as [| fuel IH]; intros; [apply respects_out_of_fuel |].
  pose proof respects_inbox_login as Hlogin.
  pose proof respects_inbox_ensure_token as Htoken.
  assert (Hretrieve : respects Inbox (__retrieve_keys fuel)).
  { apply respects_inbox_retrieve_with. intros. apply IH. }
  assert (Hensure : respects Inbox (__ensure_keys_present fuel)).
  { now apply respects_inbox_ensure_with. }
  intros s. destruct (Z.gtb_spec n MAX_RETRIES) as [Hn | Hn].
  - rewrite retry_exceeded by lia. now exists [].
  - rewrite retry_within by lia. revert s.
    change (respects Inbox
      (before_sending fuel uri needs_keys needs_auth n ;;
       message <- lift (retry_message n) ;;
       try_except
         (__send_api_request method uri query_dict body_dict
            needs_keys needs_auth)
         (recovery fuel method uri query_dict body_dict
            needs_keys needs_auth n))).
    unfold before_sending. frames.
    apply respects_try; [apply respects_send, receptive_Inbox |].
    intros e k. destruct e; simpl; try discriminate; intros [= <-]; frames.
Qed.

Lemma respects_inbox_retrieve (fuel : nat) :
  respects Inbox (__retrieve_keys fuel).
Proof.
  apply respects_inbox_retrieve_with. intros.
  apply respects_inbox_retry.
Qed.

Lemma respects_inbox_ensure_keys (fuel : nat) :
  respects Inbox (__ensure_keys_present fuel).
Proof. apply respects_inbox_ensure_with, respects_inbox_retrieve. Qed.

Lemma later_inbox_length (s s' : state) :
  Inbox s s' -> (List.length (inbox s') <= List.length (inbox s))%nat.
Proof. intros [used H]. rewrite H, List.length_app. lia. Qed.

(** *** Enough fuel *)

Lemma finishes_at_bind {A B} (m : M A) (k : A -> M B) (s : state) :
  fst (m s) <> OutOfFuel ->
  (forall a s', m s = (Return a, s') -> fst (k a s') <> OutOfFuel) ->
  fst (bind m k s) <> OutOfFuel.
Proof.
  intros Hm Hk. rewrite bind_eq.
  destruct (m s) as [[a | e |] s']; simpl in *;
    [now apply Hk | discriminate | contradiction].
Qed.

Lemma respects_inbox_before_sending (fuel : nat) (uri : string)
    (needs_keys needs_auth : bool) (n : Z) :
  respects Inbox (before_sending fuel uri needs_keys needs_auth n).
Proof.
  pose proof (respects_inbox_ensure_keys fuel).
  pose proof respects_inbox_ensure_token.
  unfold before_sending. frames.
Qed.

Lemma retrieve_finishes_if (fuel : nat) (s : state) :
  (forall s', List.length (inbox s') = List.length (inbox s) ->
     fst (api_request fuel "POST" "service/checkVersion" [] [] false false s')
       <> OutOfFuel) ->
  fst (__retrieve_keys fuel s) <> OutOfFuel.
Proof.
  intros Hapi. unfold __retrieve_keys, retrieve_keys_with.
  rewrite scoped_eq. cbn [fst].
  apply finishes_at_bind; [discriminate | intros [] s0 [= <-]].
  apply finishes_at_bind; [now apply Hapi | intros response s1 _].
  revert s1. change (finishes
    (logger_debug "Successfully retrieved encryption keys" ;;
     encKey <- lift (getitem response "encKey") ;;
     set_attr set_enc_key encKey ;;
     signKey <- lift (getitem response "signKey") ;;
     set_attr set_sign_key signKey)).
  finishes.
Qed.

Lemma retry_finishes_aux (fuel : nat) :
  forall (method uri : string) (query_dict body_dict : pydict)
         (needs_keys needs_auth : bool) (n : Z) (s : state),
    (2 * List.length (inbox s) + (if needs_keys then 2 else 1) <= fuel)%nat ->
    fst (__api_request_retry fuel method uri query_dict body_dict
           needs_keys needs_auth n s) <> OutOfFuel.
Proof.
  induction fuel as [| fuel IH]; intros method uri query_dict body_dict
    needs_keys needs_auth n s Hfuel.
  { destruct needs_keys; lia. }
  assert (Hretrieve : forall s1,
            (2 * List.length (inbox s1) + 1 <= fuel)%nat ->
            fst (__retrieve_keys fuel s1) <> OutOfFuel).
  { intros s1 H1. apply retrieve_finishes_if. intros s' Hlen.
    apply IH. rewrite Hlen. exact H1. }
  destruct (Z.gtb_spec n MAX_RETRIES) as [Hn | Hn].
  { rewrite retry_exceeded by lia. discriminate. }
  rewrite retry_within by lia.
  pose proof (respects_inbox_before_sending fuel uri needs_keys needs_auth n s)
    as Hlater. apply later_inbox_length in Hlater.
  apply finishes_at_bind.
  { unfold before_sending.
    apply finishes_at_bind; [discriminate | intros [] s0 [= <-]].
    apply finishes_at_bind.
    - destruct needs_keys; [| discriminate].
      unfold __ensure_keys_present, ensure_keys_present_with.
      apply finishes_at_bind; [discriminate | intros c s0 [= <- <-]].
      destruct (is_none (enc_key _) || is_none (sign_key _));
        [| discriminate].
      apply Hretrieve. simpl. lia.
    - intros [] s0 _. destruct needs_auth; [| discriminate].
      apply finishes_ensure_token. }
  intros [] s0 Hbefore. rewrite Hbefore in Hlater. simpl in Hlater.
  apply finishes_at_bind; [apply finishes_lift | intros message s0' Hm].
  assert (s0' = s0) as ->.
  { destruct (retry_message n); unfold lift, ret, raise in Hm; congruence. }
  unfold try_except.
  pose proof (send_outcome method uri query_dict body_dict
                needs_keys needs_auth s0) as Hsend. cbv zeta in Hsend.
  destruct (__send_api_request method uri query_dict body_dict
              needs_keys needs_auth s0) as [[v | e |] s1];
    simpl in Hsend; [discriminate | | contradiction].
  destruct (recovery fuel method uri query_dict body_dict needs_keys
              needs_auth n e) as [k |] eqn:Hk; [| discriminate].
  assert (Hlen : (S (List.length (inbox s1)) = List.length (inbox s0))%nat).
  { destruct Hsend as (resp & st & code & Hin & _).
    - destruct e; simpl in Hk; try discriminate; reflexivity.
    - rewrite Hin. reflexivity. }
  assert (Hnext : forall s2,
            (List.length (inbox s2) <= List.length (inbox s1))%nat ->
            fst (__api_request_retry fuel method uri query_dict body_dict
                   needs_keys needs_auth (n + 1) s2) <> OutOfFuel).
  { intros s2 H2. apply IH. destruct needs_keys; lia. }
  destruct e; simpl in Hk; try discriminate; injection Hk as <-.
  - apply finishes_at_bind.
    + apply Hretrieve. destruct needs_keys; lia.
    + intros [] s2 Hr. apply Hnext.
      pose proof (respects_inbox_retrieve fuel s1) as H.
      rewrite Hr in H. now apply later_inbox_length in H.
  - apply finishes_at_bind.
    + apply finishes_login.
    + intros [] s2 Hr. apply Hnext.
      pose proof (respects_inbox_login s1) as H.
      rewrite Hr in H. now apply later_inbox_length in H.
Qed.

(** With [enough_fuel] the pipeline comes to an end, whatever the server
    and the libraries answer. *)
Lemma retry_finishes (fuel : nat) (method uri : string)
    (query_dict body_dict : pydict) (needs_keys needs_auth : bool)
    (n : Z) (s : state) :
  (enough_fuel s <= fuel)%nat ->
  fst (__api_request_retry fuel method uri query_dict body_dict
         needs_keys needs_auth n s) <> OutOfFuel.
Proof.
  unfold enough_fuel. intros H. apply retry_finishes_aux.
  destruct needs_keys; lia.
Qed.

(** *** The retried attempt *)

Lemma retry_message_type_error (n : Z) :
  1 <= n -> retry_message n = Err TypeError.
Proof.
  intros Hn. unfold retry_message.
  destruct (Z.gtb_spec n 0); [reflexivity | lia].
Qed.

Lemma retried_stops_at_line_123 (fuel : nat) (method uri : string)
    (query_dict body_dict : pydict) (needs_keys needs_auth : bool)
    (n : Z) (s : state) :
  1 <= n <= MAX_RETRIES ->
  __api_request_retry (S fuel) method uri query_dict body_dict
    needs_keys needs_auth n s
  = (before_sending fuel uri needs_keys needs_auth n ;; raise TypeError) s.
Proof.
  intros Hn. rewrite retry_within by lia.
  rewrite retry_message_type_error by lia.
  rewrite !bind_eq.
  destruct (before_sending fuel uri needs_keys needs_auth n s)
    as [[[] | e |] s0]; reflexivity.
Qed.

Lemma retried_never_returns (fuel : nat) (method uri : string)
    (query_dict body_dict : pydict) (needs_keys needs_auth : bool)
    (n : Z) (s : state) (v : json) :
  1 <= n ->
  fst (__api_request_retry fuel method uri query_dict body_dict
         needs_keys needs_auth n s) <> Return v.
Proof.
  intros Hn. destruct fuel as [| fuel]; [discriminate |].
  destruct (Z.gtb_spec n MAX_RETRIES) as [Hm | Hm].
  - rewrite retry_exceeded by lia. discriminate.
  - rewrite retried_stops_at_line_123 by lia. rewrite bind_eq.
    destruct (before_sending fuel uri needs_keys needs_auth n s)
      as [[[] | e |] s0]; discriminate.
Qed.

Lemma before_sending_trace (fuel : nat) (uri : string)
    (needs_keys needs_auth : bool) (n : Z) :
  appends not_a_request (before_sending fuel uri needs_keys needs_auth n).
Proof.
  unfold before_sending, __ensure_keys_present, ensure_keys_present_with,
    __retrieve_keys, retrieve_keys_with, __ensure_token_is_valid, login.
  traces.
Qed.

(** C2.  An activation of [__api_request_retry] with [num_retries >= 1]
    evaluates [" attempt #" + (num_retries + 1)], a [TypeError]: within
    the budget it does what precedes line 123 and raises there.  It never
    returns, with enough fuel it raises, and it sends no request of its
    own.  So when [api_request] returns a value, the first attempt's
    request returned it: no recovery is followed by a request that
    succeeds. *)
Theorem retried_attempt_raises_type_error (fuel : nat) (method uri : string)
    (query_dict body_dict : pydict) (needs_keys needs_auth : bool)
    (n : Z) (s : state) :
  1 <= n ->
  let retried :=
    __api_request_retry (S fuel) method uri query_dict body_dict
      needs_keys needs_auth n s in
  let first :=
    api_request (S fuel) method uri query_dict body_dict
      needs_keys needs_auth s in
  retry_message n = Err TypeError /\
  (n <= MAX_RETRIES ->
   retried
   = (before_sending fuel uri needs_keys needs_auth n ;; raise TypeError) s) /\
  (forall v, fst retried <> Return v) /\
  ((enough_fuel s <= S fuel)%nat -> exists e, fst retried = Raise e) /\
  (exists added,
     trace (snd retried) = trace s ++ added /\ Forall not_a_request added) /\
  (forall v, fst first = Return v ->
     exists s0,
       before_sending fuel uri needs_keys needs_auth 0 s = (Return tt, s0) /\
       __send_api_request method uri query_dict body_dict
         needs_keys needs_auth s0 = (Return v, snd first)).
Proof.
  intros Hn retried first.
  split; [now apply retry_message_type_error |].
  split; [intros Hm; apply retried_stops_at_line_123; lia |].
  assert (Hnever : forall v, fst retried <> Return v).
  { intros v. now apply retried_never_returns. }
  split; [exact Hnever |].
  split.
  { intros Hfuel.
    pose proof (retry_finishes (S fuel) method uri query_dict body_dict
                  needs_keys needs_auth n s Hfuel) as Hfin.
    fold retried in Hfin.
    destruct (fst retried) as [v | e |] eqn:Hr;
      [now elim (Hnever v) | eauto | contradiction]. }
  split.
  { subst retried. destruct (Z.gtb_spec n MAX_RETRIES) as [Hm | Hm].
    - rewrite retry_exceeded by lia. simpl.
      exists [EvAttempt uri n]. split; [reflexivity |].
      constructor; [exact I | constructor].
    - rewrite retried_stops_at_line_123 by lia. rewrite bind_eq.
      destruct (before_sending_trace fuel uri needs_keys needs_auth n s)
        as (added & Ht & Hadd).
      exists added. split; [| exact Hadd].
      destruct (before_sending fuel uri needs_keys needs_auth n s)
        as [[[] | e |] s0]; exact Ht. }
  intros v. subst first. unfold api_request.
  rewrite retry_within by (unfold MAX_RETRIES; lia).
  rewrite bind_eq.
  destruct (before_sending fuel uri needs_keys needs_auth 0 s)
    as [[[] | e |] s0]; cbn [fst]; try discriminate.
  change (retry_message 0) with (@Ok string "").
  rewrite bind_eq. cbn [lift ret].
  unfold try_except.
  destruct (__send_api_request method uri query_dict body_dict
              needs_keys needs_auth s0) as [[v' | e |] s1] eqn:Hsend;
    cbn [fst snd]; try discriminate.
  - intros [= ->]. exists s0. auto.
  - destruct e; simpl; try discriminate; rewrite bind_eq.
    + destruct (__retrieve_keys fuel s1) as [[[] | e |] s2];
        simpl; try discriminate.
      intros H. now apply retried_never_returns in H.
    + destruct (login s1) as [[[] | e |] s2]; simpl; try discriminate.
      intros H. now apply retried_never_returns in H.
Qed.

(** *** The recovery from a rejected encryption *)


Lemma retry_trace_grows (fuel : nat) :
  forall (method uri : string) (query_dict body_dict : pydict)
         (needs_keys needs_auth : bool) (n : Z),
    appends any_event (__api_request_retry fuel method uri query_dict
                         body_dict needs_keys needs_auth n).
Proof.
  induction fuel as [| fuel IH]; intros.
  { apply appends_nothing. reflexivity. }
  cbn [__api_request_retry].
  unfold ensure_keys_present_with, retrieve_keys_with,
    __ensure_token_is_valid, login, logger_debug.
  traces.
  apply appends_try.
  - unfold __send_api_request, build_request, read_reply,
      __get_timestamp_str_ms.
    traces.
  - intros e k. destruct e; try discriminate; intros [= <-]; traces.
Qed.

(** An activation that has fuel records itself first. *)
Lemma retry_trace_head (fuel : nat) (method uri : string)
    (query_dict body_dict : pydict) (needs_keys needs_auth : bool)
    (n : Z) (s : state) :
  exists more,
    trace (snd (__api_request_retry (S fuel) method uri query_dict
                  body_dict needs_keys needs_auth n s))
    = trace s ++ EvAttempt uri n :: more.
Proof.
  cbn [__api_request_retry]. rewrite bind_eq. cbn [emit].
  match goal with
  | |- exists _, trace (snd (?tail ?s1)) = _ =>
      assert (H : appends any_event tail)
  end.
  { pose proof (retry_trace_grows fuel) as IH.
    unfold ensure_keys_present_with, retrieve_keys_with,
      __ensure_token_is_valid, login, logger_debug.
    traces.
    apply appends_try.
    - unfold __send_api_request, build_request, read_reply,
        __get_timestamp_str_ms.
      traces.
    - intros e k. destruct e; try discriminate; intros [= <-]; traces. }
  destruct (H (set_trace s (trace s ++ [EvAttempt uri n])))
    as (added & Hadd & _).
  exists added. rewrite Hadd. simpl. now rewrite <- app_assoc.
Qed.

Lemma attempt_outcome (fuel : nat) (method uri : string)
    (query_dict body_dict : pydict) (needs_keys needs_auth : bool)
    (n : Z) (s s0 s1 : state) (message : string) (r : outcome json) :
  n <= MAX_RETRIES ->
  before_sending fuel uri needs_keys needs_auth n s = (Return tt, s0) ->
  retry_message n = Ok message ->
  __send_api_request method uri query_dict body_dict needs_keys needs_auth s0
    = (r, s1) ->
  __api_request_retry (S fuel) method uri query_dict body_dict
    needs_keys needs_auth n s
  = match r with
    | Raise e =>
        match recovery fuel method uri query_dict body_dict
                needs_keys needs_auth n e with
        | Some k => k s1
        | None => (Raise e, s1)
        end
    | _ => (r, s1)
    end.
Proof.
  intros Hn Hbefore Hmsg Hsend.
  rewrite retry_within by lia.
  rewrite bind_eq, Hbefore, Hmsg, bind_eq. cbn [lift ret].
  unfold try_except. rewrite Hsend. destruct r; reflexivity.
Qed.

(** C3.  When the request of the first attempt is answered with error
    code 600001 ([__send_api_request] raises the encryption exception),
    the pipeline calls [__retrieve_keys] and, if that returns, calls itself
    with [num_retries = 1]; if it raises, so does the pipeline.  After
    the rejected request the trace of the pipeline reads: one key
    retrieval, then the second activation and what it does.  No [login]
    stands between them. *)
Theorem encryption_rejected_retrieves_keys_once (fuel : nat)
    (method uri : string) (query_dict body_dict : pydict)
    (needs_keys needs_auth : bool) (s s0 s1 : state) (msg : string) :
  before_sending fuel uri needs_keys needs_auth 0 s = (Return tt, s0) ->
  __send_api_request method uri query_dict body_dict needs_keys needs_auth s0
    = (Raise (MazdaAPIEncryptionException msg), s1) ->
  let first :=
    api_request (S fuel) method uri query_dict body_dict
      needs_keys needs_auth s in
  let retrieval := __retrieve_keys fuel s1 in
  exists inner,
    trace (snd retrieval) = trace s1 ++ [EvRetrieveKeys inner] /\
    match fst retrieval with
    | Return _ =>
        first = __api_request_retry fuel method uri query_dict body_dict
                  needs_keys needs_auth 1 (snd retrieval)
    | Raise e => first = (Raise e, snd retrieval)
    | OutOfFuel => first = (OutOfFuel, snd retrieval)
    end /\
    exists rest,
      trace (snd first) = trace s1 ++ EvRetrieveKeys inner :: rest /\
      (rest = [] \/ exists rest', rest = EvAttempt uri 1 :: rest').
Proof.
  intros Hbefore Hsend first retrieval.
  assert (Hfirst : first = (__retrieve_keys fuel ;;
                            __api_request_retry fuel method uri query_dict
                              body_dict needs_keys needs_auth 1) s1).
  { subst first. unfold api_request.
    apply (attempt_outcome fuel method uri query_dict body_dict
             needs_keys needs_auth 0 s s0 s1 "" _ ltac:(discriminate)
             Hbefore eq_refl Hsend). }
  destruct (scoped_trace EvRetrieveKeys
              (logger_debug "Retrieving encryption keys" ;;
               response <- api_request fuel "POST" "service/checkVersion"
                             [] [] false false ;;
               logger_debug "Successfully retrieved encryption keys" ;;
               encKey <- lift (getitem response "encKey") ;;
               set_attr set_enc_key encKey ;;
               signKey <- lift (getitem response "signKey") ;;
               set_attr set_sign_key signKey) s1) as [inner Hinner].
  change (trace (snd retrieval) = trace s1 ++ [EvRetrieveKeys inner])
    in Hinner.
  exists inner. split; [exact Hinner |].
  rewrite Hfirst, bind_eq. fold retrieval.
  destruct retrieval as [[[] | e |] s2]; cbn [fst snd] in *.
  - split; [reflexivity |].
    destruct fuel as [| fuel].
    + exists []. simpl. rewrite Hinner. auto.
    + destruct (retry_trace_head fuel method uri query_dict body_dict
                  needs_keys needs_auth 1 s2) as [more Hmore].
      exists (EvAttempt uri 1 :: more). rewrite Hmore, Hinner.
      rewrite <- app_assoc. simpl. eauto.
  - split; [reflexivity |]. exists []. simpl. rewrite Hinner. auto.
  - split; [reflexivity |]. exists []. simpl. rewrite Hinner. auto.
Qed.

(** *** The budget *)

Lemma own_requests_app (l1 l2 : list event) :
  own_requests (l1 ++ l2) = (own_requests l1 + own_requests l2)%nat.
Proof.
  induction l1 as [| [] l1 IH]; simpl; auto.
Qed.

Lemma own_requests_none (l : list event) :
  Forall not_a_request l -> own_requests l = 0%nat.
Proof.
  induction 1 as [| [] l H _ IH]; simpl; auto. contradiction.
Qed.


Lemma sends_none {A} (m : M A) :
  appends not_a_request m -> sends_at_most 0 m.
Proof.
  intros H s. destruct (H s) as (added & Ht & Hf).
  exists added. split; [exact Ht |].
  rewrite (own_requests_none _ Hf). reflexivity.
Qed.

Lemma sends_weaken (b b' : Z) {A} (m : M A) :
  b <= b' -> sends_at_most b m -> sends_at_most b' m.
Proof.
  intros Hb H s. destruct (H s) as (added & Ht & Hc).
  exists added. split; [exact Ht | lia].
Qed.

Lemma sends_bind (b1 b2 : Z) {A B} (m : M A) (k : A -> M B) :
  0 <= b2 ->
  sends_at_most b1 m -> (forall a, sends_at_most b2 (k a)) ->
  sends_at_most (b1 + b2) (bind m k).
Proof.
  intros H0 Hm Hk s. rewrite bind_eq. destruct (Hm s) as (l1 & H1 & C1).
  destruct (m s) as [[a | e |] s']; simpl in *;
    try (exists l1; split; [exact H1 | lia]).
  destruct (Hk a s') as (l2 & H2 & C2).
  exists (l1 ++ l2). rewrite H2, H1, app_assoc, own_requests_app.
  split; [reflexivity | lia].
Qed.

Lemma sends_try (b1 b2 : Z) {A} (m : M A) (h : exn -> option (M A)) :
  0 <= b2 ->
  sends_at_most b1 m ->
  (forall e k, h e = Some k -> sends_at_most b2 k) ->
  sends_at_most (b1 + b2) (try_except m h).
Proof.
  intros H0 Hm Hh s. unfold try_except. destruct (Hm s) as (l1 & H1 & C1).
  destruct (m s) as [[a | e |] s']; simpl in *;
    try (exists l1; split; [exact H1 | lia]).
  destruct (h e) as [k |] eqn:He; simpl;
    try (exists l1; split; [exact H1 | lia]).
  destruct (Hh e k He s') as (l2 & H2 & C2).
  exists (l1 ++ l2). rewrite H2, H1, app_assoc, own_requests_app.
  split; [reflexivity | lia].
Qed.

Lemma send_sends_one (method uri : string) (query_dict body_dict : pydict)
    (needs_keys needs_auth : bool) :
  sends_at_most 1
    (__send_api_request method uri query_dict body_dict
       needs_keys needs_auth).
Proof.
  unfold __send_api_request.
  change 1 with (0 + (1 + 0)).
  apply sends_bind; [lia | |intros request].
  { apply sends_none. unfold build_request, __get_timestamp_str_ms. traces. }
  apply sends_bind; [lia | | intros resp].
  { intros s. exists [EvRequest request]. split; [| simpl; lia].
    unfold session_request. rewrite bind_eq. simpl.
    destruct (inbox s) as [| [v | w] rest]; reflexivity. }
  apply sends_none. unfold read_reply. traces.
Qed.

Lemma retrieve_sends_none (fuel : nat) : sends_at_most 0 (__retrieve_keys fuel).
Proof.
  apply sends_none. unfold __retrieve_keys, retrieve_keys_with. traces.
Qed.

Lemma login_sends_none : sends_at_most 0 login.
Proof. apply sends_none. unfold login. traces. Qed.

Lemma retry_sends_at_most (fuel : nat) :
  forall (method uri : string) (query_dict body_dict : pydict)
         (needs_keys needs_auth : bool) (n : Z),
    sends_at_most (Z.max 0 (MAX_RETRIES + 1 - n))
      (__api_request_retry fuel method uri query_dict body_dict
         needs_keys needs_auth n).
Proof.
  induction fuel as [| fuel IH]; intros.
  { intros s. exists []. simpl. rewrite app_nil_r. split; [reflexivity | lia]. }
  intros s. destruct (Z.gtb_spec n MAX_RETRIES) as [Hn | Hn].
  { rewrite retry_exceeded by lia. exists [EvAttempt uri n].
    split; [reflexivity | simpl; lia]. }
  rewrite retry_within by lia. revert s.
  change (sends_at_most (Z.max 0 (MAX_RETRIES + 1 - n))
    (before_sending fuel uri needs_keys needs_auth n ;;
     message <- lift (retry_message n) ;;
     try_except
       (__send_api_request method uri query_dict body_dict
          needs_keys needs_auth)
       (recovery fuel method uri query_dict body_dict
          needs_keys needs_auth n))).
  apply (sends_weaken (0 + (0 + (1 + (0 + Z.max 0 (MAX_RETRIES + 1 - (n + 1))))))).
  { lia. }
  apply sends_bind; [lia | | intros []].
  { apply sends_none, before_sending_trace. }
  apply sends_bind; [lia | | intros message].
  { apply sends_none. traces. }
  apply sends_try; [lia | apply send_sends_one |].
  intros e k. destruct e; cbn [recovery]; try discriminate; intros [= <-].
  - apply sends_bind; [lia | apply retrieve_sends_none | intros; apply IH].
  - apply sends_bind; [lia | apply login_sends_none | intros; apply IH].
Qed.

(** C1, as the code has it.  The counter starts at 0.  An activation
    whose counter is above [MAX_RETRIES = 4] raises the failure of the
    exhausted budget at once: nothing is sent and the session is untouched.
    An activation sends at most [MAX_RETRIES + 1 - num_retries] requests of
    its own, so a call sends at most five, whichever recoveries it goes
    through.  Where line 123 gives a message, the recovery from a rejected
    encryption is a key retrieval and the recovery from an expired token is
    a login, each followed by the activation with the counter plus one; any
    other failure of the request is raised as it is. *)
Theorem retry_budget_is_shared (fuel : nat) (method uri : string)
    (query_dict body_dict : pydict) (needs_keys needs_auth : bool)
    (n : Z) (s : state) :
  let activation :=
    __api_request_retry (S fuel) method uri query_dict body_dict
      needs_keys needs_auth n in
  api_request (S fuel) method uri query_dict body_dict needs_keys needs_auth
    = __api_request_retry (S fuel) method uri query_dict body_dict
        needs_keys needs_auth 0 /\
  MAX_RETRIES = 4 /\
  (n > MAX_RETRIES ->
   activation s
   = (Raise retries_exceeded, set_trace s (trace s ++ [EvAttempt uri n]))) /\
  (exists added,
     trace (snd (activation s)) = trace s ++ added /\
     Z.of_nat (own_requests added) <= Z.max 0 (MAX_RETRIES + 1 - n)) /\
  (forall (s0 s1 : state) (e : exn) (message : string),
     n <= MAX_RETRIES ->
     before_sending fuel uri needs_keys needs_auth n s = (Return tt, s0) ->
     retry_message n = Ok message ->
     __send_api_request method uri query_dict body_dict
       needs_keys needs_auth s0 = (Raise e, s1) ->
     match e with
     | MazdaAPIEncryptionException _ =>
         activation s
         = (__retrieve_keys fuel ;;
            __api_request_retry fuel method uri query_dict body_dict
              needs_keys needs_auth (n + 1)) s1
     | MazdaTokenExpiredException _ =>
         activation s
         = (login ;;
            __api_request_retry fuel method uri query_dict body_dict
              needs_keys needs_auth (n + 1)) s1
     | _ => activation s = (Raise e, s1)
     end).
Proof.
  intros activation.
  split; [reflexivity |].
  split; [reflexivity |].
  split; [intros Hn; now apply retry_exceeded |].
  split; [apply retry_sends_at_most |].
  intros s0 s1 e message Hn Hbefore Hmsg Hsend.
  unfold activation.
  rewrite (attempt_outcome fuel method uri query_dict body_dict
             needs_keys needs_auth n s s0 s1 message _ Hn Hbefore Hmsg Hsend).
  destruct e; reflexivity.
Qed.

(** *** The two keys *)

Lemma later_inbox_In (s s' : state) (reply : libcall json) :
  Inbox s s' -> In reply (inbox s') -> In reply (inbox s).
Proof. intros [used ->] H. apply in_or_app. now right. Qed.

(** A value the pipeline returns for the key request was decrypted from a
    reply. *)
Lemma retry_returns_from_inbox (fuel : nat) :
  forall (method uri : string) (query_dict body_dict : pydict)
         (needs_keys needs_auth : bool) (n : Z) (s : state) (v : json),
    contains "checkVersion" uri = true ->
    fst (__api_request_retry fuel method uri query_dict body_dict
           needs_keys needs_auth n s) = Return v ->
    exists resp payload,
      In (Gives resp) (inbox s) /\
      getitem resp "payload" = Ok payload /\
      __decrypt_payload_using_app_code payload = Ok v.
Proof.
  induction fuel as [| fuel IH]; intros method uri query_dict body_dict
    needs_keys needs_auth n s v Huri; [discriminate |].
  destruct (Z.gtb_spec n MAX_RETRIES) as [Hn | Hn].
  { rewrite retry_exceeded by lia. discriminate. }
  rewrite retry_within by lia. rewrite bind_eq.
  pose proof (respects_inbox_before_sending fuel uri needs_keys needs_auth n s)
    as Hlater.
  destruct (before_sending fuel uri needs_keys needs_auth n s)
    as [[[] | e |] s0]; cbn [fst snd] in *; try discriminate.
  rewrite bind_eq.
  destruct (retry_message n) as [message | e]; cbn [lift ret raise];
    [| discriminate].
  unfold try_except.
  pose proof (send_outcome method uri query_dict body_dict
                needs_keys needs_auth s0) as Hsend. cbv zeta in Hsend.
  pose proof (respects_send Inbox method uri query_dict body_dict
                needs_keys needs_auth receptive_Inbox s0) as Hlater1.
  destruct (__send_api_request method uri query_dict body_dict
              needs_keys needs_auth s0) as [[v' | e |] s1];
    cbn [fst snd] in *; try discriminate.
  - intros [= ->]. destruct Hsend as (resp & Hin & Hdec).
    destruct (Hdec Huri) as (payload & Hp & Hd).
    exists resp, payload. repeat split; auto.
    apply (later_inbox_In s s0); [exact Hlater |].
    rewrite Hin. now left.
  - assert (Hs1 : Inbox s s1) by (eapply frame_trans; eauto).
    destruct e; cbn [recovery]; try discriminate; rewrite bind_eq.
    + pose proof (respects_inbox_retrieve fuel s1) as Hlater2.
      destruct (__retrieve_keys fuel s1) as [[[] | e |] s2];
        cbn [fst snd] in *; try discriminate.
      intros H. destruct (IH _ _ _ _ _ _ _ _ _ Huri H)
        as (resp & payload & Hin & Hp & Hd).
      exists resp, payload. repeat split; auto.
      apply (later_inbox_In s s2); [| exact Hin].
      eapply frame_trans; eauto.
    + pose proof (respects_inbox_login s1) as Hlater2.
      destruct (login s1) as [[[] | e |] s2];
        cbn [fst snd] in *; try discriminate.
      intros H. destruct (IH _ _ _ _ _ _ _ _ _ Huri H)
        as (resp & payload & Hin & Hp & Hd).
      exists resp, payload. repeat split; auto.
      apply (later_inbox_In s s2); [| exact Hin].
      eapply frame_trans; eauto.
Qed.


Lemma keyed_frame (s s' : state) :
  Keys s s' -> Inbox s s' -> keyed s -> keyed s'.
Proof.
  intros [He Hs] Hin [Hk Hw]. split.
  - unfold keys_together in *. now rewrite He, Hs.
  - intros resp payload v H. apply Hw. eapply later_inbox_In; eauto.
Qed.

Lemma preserves_frame {A} (m : M A) :
  respects Keys m -> respects Inbox m -> preserves_keyed m.
Proof. intros HK HI s. apply keyed_frame; [apply HK | apply HI]. Qed.

Lemma preserves_bind {A B} (m : M A) (k : A -> M B) :
  preserves_keyed m -> (forall a, preserves_keyed (k a)) ->
  preserves_keyed (bind m k).
Proof.
  intros Hm Hk s Hs. rewrite bind_eq. specialize (Hm s Hs).
  destruct (m s) as [[a | e |] s']; simpl in *; auto.
  now apply Hk.
Qed.

Lemma preserves_try {A} (m : M A) (h : exn -> option (M A)) :
  preserves_keyed m ->
  (forall e k, h e = Some k -> preserves_keyed k) ->
  preserves_keyed (try_except m h).
Proof.
  intros Hm Hh s Hs. unfold try_except. specialize (Hm s Hs).
  destruct (m s) as [[a | e |] s']; simpl in *; auto.
  destruct (h e) as [k |] eqn:He; simpl; auto.
  now apply (Hh e k He).
Qed.

Lemma retrieve_preserves_if (fuel : nat) :
  (forall m u q b nk na n,
     preserves_keyed (__api_request_retry fuel m u q b nk na n)) ->
  preserves_keyed (__retrieve_keys fuel).
Proof.
  intros IH s [Hk Hw]. unfold __retrieve_keys, retrieve_keys_with.
  rewrite scoped_eq. cbn [snd].
  rewrite bind_eq. cbn [logger_debug ret]. rewrite bind_eq.
  assert (H0 : keyed (set_trace s [])) by (split; assumption).
  pose proof (IH "POST" "service/checkVersion" [] [] false false 0 _ H0)
    as Hafter.
  pose proof (retry_returns_from_inbox fuel "POST" "service/checkVersion"
                [] [] false false 0 (set_trace s [])) as Hfrom.
  unfold api_request.
  destruct (__api_request_retry fuel "POST" "service/checkVersion" [] []
              false false 0 (set_trace s [])) as [[response | e |] s1];
    cbn [fst snd] in *; try exact Hafter.
  destruct (Hfrom response eq_refl eq_refl)
    as (resp & payload & Hin & Hp & Hd).
  destruct (Hw resp payload response Hin Hp Hd)
    as (encKey & signKey & He & Hs & Hnone).
  rewrite bind_eq. cbn [logger_debug ret].
  rewrite bind_eq, He. cbn [lift ret]. rewrite bind_eq. cbn [set_attr].
  rewrite bind_eq, Hs. cbn [lift ret set_attr].
  destruct Hafter as [_ Hw1]. split; [exact Hnone | exact Hw1].
Qed.

Lemma retry_preserves (fuel : nat) :
  forall (method uri : string) (query_dict body_dict : pydict)
         (needs_keys needs_auth : bool) (n : Z),
    preserves_keyed (__api_request_retry fuel method uri query_dict
                       body_dict needs_keys needs_auth n).
Proof.
  induction fuel as [| fuel IH]; intros; [intros s Hs; exact Hs |].
  pose proof (retrieve_preserves_if fuel IH) as Hretrieve.
  assert (Hlogin : preserves_keyed login).
  { apply preserves_frame;
      [apply respects_keys_login | apply respects_inbox_login]. }
  assert (Htoken : preserves_keyed __ensure_token_is_valid).
  { apply preserves_frame;
      [apply respects_keys_ensure_token | apply respects_inbox_ensure_token]. }
  intros s Hs. destruct (Z.gtb_spec n MAX_RETRIES) as [Hn | Hn].
  { rewrite retry_exceeded by lia. exact Hs. }
  rewrite retry_within by lia. revert s Hs.
  change (preserves_keyed
    (before_sending fuel uri needs_keys needs_auth n ;;
     message <- lift (retry_message n) ;;
     try_except
       (__send_api_request method uri query_dict body_dict
          needs_keys needs_auth)
       (recovery fuel method uri query_dict body_dict
          needs_keys needs_auth n))).
  apply preserves_bind; [| intros []].
  { unfold before_sending.
    apply preserves_bind; [| intros []].
    { apply preserves_frame; frames. }
    apply preserves_bind; [| intros []].
    - destruct needs_keys; [| apply preserves_frame; frames].
      unfold __ensure_keys_present, ensure_keys_present_with.
      apply preserves_bind; [apply preserves_frame; frames | intros c].
      destruct (is_none (enc_key c) || is_none (sign_key c));
        [exact Hretrieve | apply preserves_frame; frames].
    - destruct needs_auth; [exact Htoken | apply preserves_frame; frames]. }
  apply preserves_bind; [apply preserves_frame; frames | intros message].
  apply preserves_try.
  { apply preserves_frame; apply respects_send;
      [apply receptive_Keys | apply receptive_Inbox]. }
  intros e k. destruct e; cbn [recovery]; try discriminate; intros [= <-].
  - apply preserves_bind; [exact Hretrieve | intros; apply IH].
  - apply preserves_bind; [exact Hlogin | intros; apply IH].
Qed.

Lemma ensure_keys_preserves (fuel : nat) :
  preserves_keyed (__ensure_keys_present fuel).
Proof.
  unfold __ensure_keys_present, ensure_keys_present_with.
  apply preserves_bind; [apply preserves_frame; frames | intros c].
  destruct (is_none (enc_key c) || is_none (sign_key c)).
  - apply retrieve_preserves_if. intros. apply retry_preserves.
  - apply preserves_frame; frames.
Qed.

(** A key retrieval that returns has taken both keys from the one value
    the key request returned. *)
Lemma retrieve_assigns_both (fuel : nat) (s : state) :
  fst (__retrieve_keys fuel s) = Return tt ->
  exists response,
    fst (api_request fuel "POST" "service/checkVersion" [] [] false false
           (set_trace s [])) = Return response /\
    getitem response "encKey" = Ok (enc_key (self (snd (__retrieve_keys fuel s)))) /\
    getitem response "signKey" = Ok (sign_key (self (snd (__retrieve_keys fuel s)))).
Proof.
  unfold __retrieve_keys, retrieve_keys_with.
  rewrite scoped_eq. cbn [fst snd].
  rewrite bind_eq. cbn [logger_debug ret]. rewrite bind_eq.
  destruct (api_request fuel "POST" "service/checkVersion" [] [] false false
              (set_trace s [])) as [[response | e |] s1];
    cbn [fst snd]; try discriminate.
  rewrite bind_eq. cbn [logger_debug ret]. rewrite bind_eq.
  destruct (getitem response "encKey") as [encKey | e] eqn:He;
    cbn [lift ret raise fst snd]; [| discriminate].
  rewrite bind_eq. cbn [set_attr]. rewrite bind_eq.
  destruct (getitem response "signKey") as [signKey | e] eqn:Hs;
    cbn [lift ret raise fst snd set_attr]; [| discriminate].
  intros _. exists response. repeat split; assumption.
Qed.

(** C7, as the code has it.  A new session has neither key.  [login],
    [__ensure_token_is_valid] and [__send_api_request] leave both keys as
    they are: only [__retrieve_keys] assigns them, and when it returns it
    has taken both from the one response of the key request.  In a world
    where every such response holds both keys, every operation keeps the
    keys both set or both unset. *)
Theorem keys_stay_together (fuel : nat) (method uri : string)
    (query_dict body_dict : pydict) (needs_keys needs_auth : bool)
    (n : Z) (s : state) :
  keys_together (self s) ->
  well_keyed (inbox s) ->
  (forall email password, keys_together (__init__ email password)) /\
  keys_together
    (self (snd (api_request fuel method uri query_dict body_dict
                  needs_keys needs_auth s))) /\
  keys_together
    (self (snd (__api_request_retry fuel method uri query_dict body_dict
                  needs_keys needs_auth n s))) /\
  keys_together (self (snd (__retrieve_keys fuel s))) /\
  keys_together (self (snd (__ensure_keys_present fuel s))) /\
  same_keys s (snd (login s)) /\
  same_keys s (snd (__ensure_token_is_valid s)) /\
  same_keys s (snd (__send_api_request method uri query_dict body_dict
                      needs_keys needs_auth s)) /\
  (fst (__retrieve_keys fuel s) = Return tt ->
   exists response,
     fst (api_request fuel "POST" "service/checkVersion" [] [] false false
            (set_trace s [])) = Return response /\
     getitem response "encKey"
       = Ok (enc_key (self (snd (__retrieve_keys fuel s)))) /\
     getitem response "signKey"
       = Ok (sign_key (self (snd (__retrieve_keys fuel s))))).
Proof.
  intros Hk Hw. assert (Hs : keyed s) by (split; assumption).
  split; [reflexivity |].
  split; [apply (retry_preserves fuel _ _ _ _ _ _ 0 s Hs) |].
  split; [apply (retry_preserves fuel _ _ _ _ _ _ n s Hs) |].
  split.
  { apply (retrieve_preserves_if fuel); [| exact Hs].
    intros. apply retry_preserves. }
  split; [apply (ensure_keys_preserves fuel s Hs) |].
  split; [apply respects_keys_login |].
  split; [apply respects_keys_ensure_token |].
  split; [apply (respects_send Keys), receptive_Keys |].
  apply retrieve_assigns_both.
Qed.

End Pipeline.

(** * The properties at work on the bench *)

Import Bench.

(** A server that rejects the encryption and then reports an expired token,
    in turn, four times over, and grants every recovery: the call ends with
    the [TypeError] of the second activation, after one request of its own,
    and not with the failure of the exhausted budget. *)
Lemma alternating_failures_end_in_type_error :
  let call :=
    api_request 30 "GET" "vehicles/status" [] [] true true
      (ready alternating) in
  fst call = Raise TypeError /\
  fst call <> Raise retries_exceeded /\
  own_requests (trace (snd call)) = 1%nat /\
  List.length (inbox (snd call)) = 9%nat.
Proof.
  vm_compute. repeat split; discriminate.
Qed.

Lemma retried_attempt_on_the_bench :
  1 <= 1 /\
  fst (__api_request_retry 3 "GET" "vehicles/status" [] [] true true 1
         (ready [success empty_object])) = Raise TypeError.
Proof.
  split; [discriminate |].
  pose proof (retried_attempt_raises_type_error 2 "GET" "vehicles/status"
                [] [] true true 1 (ready [success empty_object])) as H.
  destruct H as (_ & Heq & _); [discriminate |].
  rewrite Heq by discriminate. vm_compute. reflexivity.
Defined.

Lemma encryption_rejected_on_the_bench :
  let s := ready [failure 600001; success both_keys] in
  let s0 := snd (before_sending 3 "vehicles/status" true true 0 s) in
  let s1 :=
    snd (__send_api_request "GET" "vehicles/status" [] [] true true s0) in
  before_sending 3 "vehicles/status" true true 0 s = (Return tt, s0) /\
  __send_api_request "GET" "vehicles/status" [] [] true true s0
    = (Raise (MazdaAPIEncryptionException "Server rejected encrypted request"),
       s1) /\
  exists inner rest,
    trace (snd (api_request 4 "GET" "vehicles/status" [] [] true true s))
    = trace s1 ++ EvRetrieveKeys inner :: rest /\
    (rest = [] \/ exists rest', rest = EvAttempt "vehicles/status" 1 :: rest').
Proof.
  intros s s0 s1.
  assert (Hbefore : before_sending 3 "vehicles/status" true true 0 s
                    = (Return tt, s0)) by (vm_compute; reflexivity).
  assert (Hsend : __send_api_request "GET" "vehicles/status" [] [] true true s0
                  = (Raise (MazdaAPIEncryptionException
                              "Server rejected encrypted request"), s1))
    by (vm_compute; reflexivity).
  split; [exact Hbefore |]. split; [exact Hsend |].
  destruct (encryption_rejected_retrieves_keys_once 3 "GET" "vehicles/status"
              [] [] true true s s0 s1 _ Hbefore Hsend)
    as (inner & _ & _ & rest & Htrace & Hrest).
  exists inner, rest. split; assumption.
Defined.

Lemma sign_on_the_bench :
  let c := self (ready []) in
  "1700000000000" <> "" /\
  sign_key c = JStr "fedcba9876543210" /\
  "fedcba9876543210" <> "" /\
  __encrypt_payload_using_key c (Some "a=b") = Ok "prWhNHCHa7bn5WTZY+LSrw==" /\
  __get_sign_from_payload_and_timestamp c (Some "a=b") (Some "1700000000000")
    = Ok "4B524C65A1222EFC67EF0AC6BE2372EB376CCCD85113241CDC2A2AB3E063A846".
Proof.
  intros c.
  assert (Ht : "1700000000000" <> "") by discriminate.
  assert (Hk : "fedcba9876543210" <> "") by discriminate.
  assert (He : __encrypt_payload_using_key c (Some "a=b")
               = Ok "prWhNHCHa7bn5WTZY+LSrw==") by (vm_compute; reflexivity).
  split; [exact Ht |]. split; [reflexivity |].
  split; [exact Hk |]. split; [exact He |].
  destruct (sign_from_payload_and_timestamp c "a=b" "1700000000000"
              "fedcba9876543210" "prWhNHCHa7bn5WTZY+LSrw==" Ht eq_refl Hk He)
    as (Hs & _ & _).
  rewrite Hs. vm_compute. reflexivity.
Defined.

(** The plaintext [{}] is not empty; what comes back from decrypting its
    encryption is the empty [dict], not the text. *)
Lemma decrypt_returns_parsed_value :
  let c := self (ready []) in
  exists ciphertext,
    __encrypt_payload_using_key c (Some "{}") = Ok ciphertext /\
    __decrypt_payload_using_key c (JStr ciphertext) = Ok (JObj []) /\
    __decrypt_payload_using_key c (JStr ciphertext) <> Ok (JStr "{}").
Proof.
  exists "Qy2VL1F/QoPp560Sg8XJ+Q==". vm_compute. repeat split; discriminate.
Qed.

Lemma bench_cipher_round_trip (plain : string) (key : json) (c : string) :
  encryptAES128CBCBufferToBase64String plain key IV = Gives c ->
  exists buf,
    b64decode (JStr c) = Gives buf /\
    decryptAES128CBCBufferToString buf key IV = Gives plain.
Proof. apply crypto_utils_round_trip. Qed.

Lemma decrypt_encrypt_on_the_bench :
  let c := self (ready []) in
  "{}" <> "" /\
  __encrypt_payload_using_key c (Some "{}") = Ok "Qy2VL1F/QoPp560Sg8XJ+Q==" /\
  __decrypt_payload_using_key c (JStr "Qy2VL1F/QoPp560Sg8XJ+Q==")
    = Ok (JObj []).
Proof.
  intros c.
  assert (Hp : "{}" <> "") by discriminate.
  assert (He : __encrypt_payload_using_key c (Some "{}")
               = Ok "Qy2VL1F/QoPp560Sg8XJ+Q==") by (vm_compute; reflexivity).
  split; [exact Hp |]. split; [exact He |].
  rewrite (decrypt_encrypt_parses bench_cipher_round_trip c "{}"
             "Qy2VL1F/QoPp560Sg8XJ+Q==" Hp He).
  reflexivity.
Defined.

Lemma login_refused_on_the_bench :
  let s := fresh [public_key_reply; login_reply "INVALID_CREDENTIAL"] in
  fst (login s)
    = Raise (MazdaAuthenticationException "Invalid email or password") /\
  access_token (self (snd (login s))) = JNull /\
  access_token_expiration_ts (self (snd (login s))) = JNull.
Proof.
  intros s.
  pose (resp := JObj [("status", JStr "INVALID_CREDENTIAL");
                      ("data", JObj [("accessToken", JStr "token");
                                     ("accessTokenExpirationTs",
                                      JNum (inject_Z 2000))])]).
  assert (Hex : login_exchange (set_trace s [])
                = (Return resp, snd (login_exchange (set_trace s []))))
    by (vm_compute; reflexivity).
  destruct (login_refused_keeps_session s _ resp (JStr "INVALID_CREDENTIAL")
              Hex eq_refl eq_refl) as (_ & Hauth & _ & Htok & Hts).
  split; [apply Hauth; reflexivity |].
  split; [rewrite Htok | rewrite Hts]; reflexivity.
Defined.

(** The key response holds [encKey] and no [signKey]: the retrieval raises
    a [KeyError] with the encryption key assigned and the signing key not. *)
Lemma half_a_key_response_splits_the_keys :
  let s := fresh [success enc_key_only] in
  keys_together (self s) /\
  fst (__retrieve_keys 3 s) = Raise (KeyError "signKey") /\
  enc_key (self (snd (__retrieve_keys 3 s))) = JStr "0123456789abcdef" /\
  sign_key (self (snd (__retrieve_keys 3 s))) = JNull /\
  ~ keys_together (self (snd (__retrieve_keys 3 s))).
Proof.
  vm_compute. repeat split; discriminate.
Qed.

Lemma bench_well_keyed : well_keyed [success both_keys].
Proof.
  intros resp payload v [H | []] Hp Hd.
  vm_compute in H. injection H as <-.
  vm_compute in Hp. injection Hp as <-.
  vm_compute in Hd. injection Hd as <-.
  exists (JStr "0123456789abcdef"), (JStr "fedcba9876543210").
  repeat split.
Qed.

Lemma keys_together_on_the_bench :
  let s := fresh [success both_keys] in
  keys_together (self s) /\
  well_keyed (inbox s) /\
  fst (__retrieve_keys 3 s) = Return tt /\
  keys_together (self (snd (__retrieve_keys 3 s))).
Proof.
  intros s.
  assert (Hk : keys_together (self s)) by reflexivity.
  assert (Hw : well_keyed (inbox s)) by exact bench_well_keyed.
  split; [exact Hk |]. split; [exact Hw |].
  split; [vm_compute; reflexivity |].
  destruct (keys_stay_together 3 "GET" "vehicles/status" [] [] true false 0 s
              Hk Hw) as (_ & _ & _ & H & _).
  exact H.
Defined.

(** Signing with no timestamp returns the empty string though the signing
    key is missing, and signing with the signing key present raises the
    missing encryption key error. *)
Lemma signing_guards_differ :
  let none := __init__ "user@example.com" "pw" in
  let half := set_sign_key none (JStr "fedcba9876543210") in
  none_or_empty (sign_key none) = true /\
  __get_sign_from_payload_and_timestamp none (Some "a=b") (Some "") = Ok "" /\
  none_or_empty (sign_key half) = false /\
  __get_sign_from_payload_and_timestamp half (Some "a=b")
    (Some "1700000000000") = Err (MazdaException "Missing encryption key").
Proof.
  vm_compute. repeat split.
Qed.

Lemma valid_token_on_the_bench :
  let s := ready [] in
  timestamp_or_none (access_token_expiration_ts (self s)) /\
  token_invalid (self s) (clock s (ticks s)) = false /\
  __ensure_token_is_valid s = (Return tt, set_ticks s 1).
Proof.
  intros s.
  split; [exact I |]. split; [reflexivity |].
  exact (ensure_token_valid_logs_in_iff s I).
Defined.

Lemma encrypt_empty_on_the_bench :
  "0123456789abcdef" <> "" /\
  __encrypt_payload_using_key
    (set_enc_key (__init__ "user@example.com" "pw") (JStr "0123456789abcdef"))
    (Some "") = Ok "".
Proof.
  assert (Hk : "0123456789abcdef" <> "") by discriminate.
  split; [exact Hk |].
  exact (encrypt_empty_plaintext (__init__ "user@example.com" "pw")
           "0123456789abcdef" Hk).
Defined.
